(** * StarPlanner: the look-ahead tree of the local planner

    A shallow embedding of [local_planner/src/nodes/star_planner.cpp]
    ([StarPlanner::buildLookAheadTree] and [treeHeuristicFunction]) and the
    properties of the tree search that the planner's specification states.

    The planner computes with single-precision floats and Eigen vectors and
    calls three collaborators that live outside this file (the trajectory
    simulator, the cost function and the braking-distance speed limit).  The
    arithmetic is kept behind the interface [Platform]; the collaborators are
    section variables.  Every general theorem therefore holds for whatever
    the floats and the collaborators compute.  [QPlatform] instantiates the
    interface with exact rationals to run the planner on concrete inputs. *)

From Stdlib Require Import List Bool Arith ZArith QArith Lia.
Import ListNotations.

Close Scope Q_scope.
Open Scope nat_scope.

Set Implicit Arguments.

(** ** Vectors and the arithmetic interface *)

(** [Eigen::Vector3f], generic in the scalar. *)
Record Vec3 (A : Type) : Type := V3 { vx : A; vy : A; vz : A }.

(** What the planner needs from [float], [<cfloat>] and Eigen.
    [flit q] is the float written as the decimal literal [q] in the source
    ([0.2f] is [flit 0.2]); [flt] and [fge] are [<] and [>=]; [norm] is
    [Vector3f::norm()], [norm2] the norm of a two-component head
    ([.head<2>().norm()]); [qrot q v] is [q * v] for a quaternion [q].
    The last three members are the opaque types of the headers that
    [star_planner.cpp] includes: the cost weights, the k-d tree of the point
    cloud, and the members of [simulation_limits] that this file never
    names. *)
Class Platform : Type := {
  float : Type;
  flit : Q -> float;
  FLT_MAX : float;
  fadd : float -> float -> float;
  fsub : float -> float -> float;
  fmul : float -> float -> float;
  flt : float -> float -> bool;
  fge : float -> float -> bool;
  norm : Vec3 float -> float;
  norm2 : float -> float -> float;
  Quaternionf : Type;
  qrot : Quaternionf -> Vec3 float -> Vec3 float;
  costParameters : Type;
  kdtree_t : Type;
  limits_rest : Type
}.

Section Model.

Context {P : Platform}.

Local Abbreviation Vector3f := (Vec3 float).

(** [std::min(a, b)]: [b] when [b < a], otherwise [a]. *)
Definition fmin (a b : float) : float := if flt b a then b else a.

(** [a - b] on vectors, componentwise. *)
Definition vsub (a b : Vector3f) : Vector3f :=
  V3 (fsub (vx a) (vx b)) (fsub (vy a) (vy b)) (fsub (vz a) (vz b)).

(** [Eigen::Vector3f::Zero()] and [Eigen::Vector3f(0.0f, 0.0f, 0.0f)]. *)
Definition Zero : Vector3f := V3 (flit 0) (flit 0) (flit 0).

(** [v.head<2>().norm()]. *)
Definition head2_norm (v : Vector3f) : float := norm2 (vx v) (vy v).

(** ** The data model *)

(** Modelled from the spec: [simulation_state] (declared in a header that is
    not part of this file): position, velocity, acceleration and a
    timestamp. *)
Record simulation_state : Type := {
  position : Vector3f;
  velocity : Vector3f;
  acceleration : Vector3f;
  time : float
}.

(** Modelled from the spec: the constructor [simulation_state(t, p)] used for
    the terminal node, the instantaneous state at position [p]: velocity and
    acceleration are zero. *)
Definition simulation_state_at (t : float) (p : Vector3f) : simulation_state :=
  {| position := p; velocity := Zero; acceleration := Zero; time := t |}.

(** Modelled from the spec: [simulation_limits] (same header): the three
    limits that [buildLookAheadTree] reads, and the rest of the struct. *)
Record simulation_limits : Type := {
  max_xy_velocity_norm : float;
  max_acceleration_norm : float;
  max_jerk_norm : float;
  other_limits : limits_rest
}.

Definition set_max_xy_velocity_norm (l : simulation_limits) (v : float)
  : simulation_limits :=
  {| max_xy_velocity_norm := v;
     max_acceleration_norm := max_acceleration_norm l;
     max_jerk_norm := max_jerk_norm l;
     other_limits := other_limits l |}.

(** Modelled from the spec: [TreeNode] ([tree_node.h] is not part of this
    file): state, setpoint, total score [f], heuristic [h], parent index and
    the closed flag. *)
Record TreeNode : Type := {
  state : simulation_state;
  setpoint : Vector3f;
  total_cost_ : float;
  heuristic_ : float;
  origin_ : nat;
  closed_ : bool
}.

(** Modelled from the spec: the constructor [TreeNode(from, state, sp)]: the
    closed flag is true only once the node was expanded, so a new node is
    open; it carries no cost yet. *)
Definition TreeNode_new (from : nat) (st : simulation_state) (sp : Vector3f)
  : TreeNode :=
  {| state := st; setpoint := sp; total_cost_ := flit 0; heuristic_ := flit 0;
     origin_ := from; closed_ := false |}.

Definition getPosition (n : TreeNode) : Vector3f := position (state n).
Definition getSetpoint (n : TreeNode) : Vector3f := setpoint n.

Definition set_heuristic (h : float) (n : TreeNode) : TreeNode :=
  {| state := state n; setpoint := setpoint n; total_cost_ := total_cost_ n;
     heuristic_ := h; origin_ := origin_ n; closed_ := closed_ n |}.

Definition set_total_cost (c : float) (n : TreeNode) : TreeNode :=
  {| state := state n; setpoint := setpoint n; total_cost_ := c;
     heuristic_ := heuristic_ n; origin_ := origin_ n; closed_ := closed_ n |}.

Definition set_closed (b : bool) (n : TreeNode) : TreeNode :=
  {| state := state n; setpoint := setpoint n; total_cost_ := total_cost_ n;
     heuristic_ := heuristic_ n; origin_ := origin_ n; closed_ := b |}.

(** Modelled from the spec: [TreeNode::setCosts(h, c)] stores the heuristic
    and the total score. *)
Definition setCosts (h c : float) (n : TreeNode) : TreeNode :=
  set_total_cost c (set_heuristic h n).

(** The members of [StarPlanner] that [buildLookAheadTree] reads or writes. *)
Record StarPlanner : Type := {
  tree_node_duration_ : float;
  tree_heuristic_weight_ : float;
  max_sensor_range_ : float;
  acceptance_radius_ : float;
  position_ : Vector3f;
  velocity_ : Vector3f;
  goal_ : Vector3f;
  q_ : Quaternionf;
  cost_params_ : costParameters;
  lims_ : simulation_limits;
  cloud_ : kdtree_t;
  tree_ : list TreeNode;
  closed_set_ : list nat;
  path_node_setpoints_ : list Vector3f;
  starting_direction_ : Vector3f
}.

Definition set_tree (p : StarPlanner) (t : list TreeNode) : StarPlanner :=
  {| tree_node_duration_ := tree_node_duration_ p;
     tree_heuristic_weight_ := tree_heuristic_weight_ p;
     max_sensor_range_ := max_sensor_range_ p;
     acceptance_radius_ := acceptance_radius_ p;
     position_ := position_ p; velocity_ := velocity_ p; goal_ := goal_ p;
     q_ := q_ p; cost_params_ := cost_params_ p; lims_ := lims_ p;
     cloud_ := cloud_ p; tree_ := t; closed_set_ := closed_set_ p;
     path_node_setpoints_ := path_node_setpoints_ p;
     starting_direction_ := starting_direction_ p |}.

Definition set_closed_set (p : StarPlanner) (c : list nat) : StarPlanner :=
  {| tree_node_duration_ := tree_node_duration_ p;
     tree_heuristic_weight_ := tree_heuristic_weight_ p;
     max_sensor_range_ := max_sensor_range_ p;
     acceptance_radius_ := acceptance_radius_ p;
     position_ := position_ p; velocity_ := velocity_ p; goal_ := goal_ p;
     q_ := q_ p; cost_params_ := cost_params_ p; lims_ := lims_ p;
     cloud_ := cloud_ p; tree_ := tree_ p; closed_set_ := c;
     path_node_setpoints_ := path_node_setpoints_ p;
     starting_direction_ := starting_direction_ p |}.

Definition set_path (p : StarPlanner) (s : list Vector3f) : StarPlanner :=
  {| tree_node_duration_ := tree_node_duration_ p;
     tree_heuristic_weight_ := tree_heuristic_weight_ p;
     max_sensor_range_ := max_sensor_range_ p;
     acceptance_radius_ := acceptance_radius_ p;
     position_ := position_ p; velocity_ := velocity_ p; goal_ := goal_ p;
     q_ := q_ p; cost_params_ := cost_params_ p; lims_ := lims_ p;
     cloud_ := cloud_ p; tree_ := tree_ p; closed_set_ := closed_set_ p;
     path_node_setpoints_ := s;
     starting_direction_ := starting_direction_ p |}.

Definition set_starting_direction (p : StarPlanner) (d : Vector3f)
  : StarPlanner :=
  {| tree_node_duration_ := tree_node_duration_ p;
     tree_heuristic_weight_ := tree_heuristic_weight_ p;
     max_sensor_range_ := max_sensor_range_ p;
     acceptance_radius_ := acceptance_radius_ p;
     position_ := position_ p; velocity_ := velocity_ p; goal_ := goal_ p;
     q_ := q_ p; cost_params_ := cost_params_ p; lims_ := lims_ p;
     cloud_ := cloud_ p; tree_ := tree_ p; closed_set_ := closed_set_ p;
     path_node_setpoints_ := path_node_setpoints_ p;
     starting_direction_ := d |}.

(** [StarPlanner::setGoal]. *)
Definition setGoal (p : StarPlanner) (goal : Vector3f) : StarPlanner :=
  {| tree_node_duration_ := tree_node_duration_ p;
     tree_heuristic_weight_ := tree_heuristic_weight_ p;
     max_sensor_range_ := max_sensor_range_ p;
     acceptance_radius_ := acceptance_radius_ p;
     position_ := position_ p; velocity_ := velocity_ p; goal_ := goal;
     q_ := q_ p; cost_params_ := cost_params_ p; lims_ := lims_ p;
     cloud_ := cloud_ p; tree_ := tree_ p; closed_set_ := closed_set_ p;
     path_node_setpoints_ := path_node_setpoints_ p;
     starting_direction_ := starting_direction_ p |}.

(** ** Vector operations of the arena *)

(** The value read for an index outside the arena.  The planner never does
    so: see [origin_in_range] below. *)
Definition no_node : TreeNode :=
  TreeNode_new 0 (simulation_state_at (flit 0) Zero) Zero.

(** [tree_[i]]. *)
Definition tree_at (p : StarPlanner) (i : nat) : TreeNode :=
  nth i (tree_ p) no_node.

(** [tree_.push_back(n)] and [closed_set_.push_back(i)]. *)
Definition push_node (p : StarPlanner) (n : TreeNode) : StarPlanner :=
  set_tree p (tree_ p ++ [n]).

Definition push_closed (p : StarPlanner) (i : nat) : StarPlanner :=
  set_closed_set p (closed_set_ p ++ [i]).

(** [v[i] = f(v[i])] for a vector [v]. *)
Fixpoint update_at {A : Type} (i : nat) (f : A -> A) (l : list A) : list A :=
  match l, i with
  | [], _ => []
  | x :: r, 0 => f x :: r
  | x :: r, S j => x :: update_at j f r
  end.

(** [tree_.back().field = ...]. *)
Definition update_back (p : StarPlanner) (f : TreeNode -> TreeNode)
  : StarPlanner :=
  set_tree p (update_at (length (tree_ p) - 1) f (tree_ p)).

(** [trajectory.back()] of the simulator's sequence of states. *)
Definition back (trajectory : list simulation_state) : simulation_state :=
  last trajectory (simulation_state_at (flit 0) Zero).

(** ** The collaborators *)

(** [computeMaxSpeedFromBrakingDistance(jerk, acceleration, distance)]. *)
Variable computeMaxSpeedFromBrakingDistance : float -> float -> float -> float.

(** [simpleCost(node, goal, cost_params, cloud)]. *)
Variable simpleCost :
  TreeNode -> Vector3f -> costParameters -> kdtree_t -> float.

(** [TrajectorySimulator(limits, state, step).generate_trajectory(direction,
    duration)]. *)
Variable generate_trajectory :
  simulation_limits -> simulation_state -> float -> Vector3f -> float ->
  list simulation_state.

(** ** [treeHeuristicFunction] *)

Definition treeHeuristicFunction (p : StarPlanner) (node_number : nat) : float :=
  fmul (norm (vsub (goal_ p) (getPosition (tree_at p node_number))))
       (tree_heuristic_weight_ p).

(** ** [buildLookAheadTree] *)

(** The ten candidate directions. *)
Definition candidates : list Vector3f :=
  [ V3 (flit 1) (flit 0) (flit 0);
    V3 (flit 0) (flit 1) (flit 0);
    V3 (flit 0) (flit 0) (flit 1);
    V3 (flit (-1)) (flit 0) (flit 0);
    V3 (flit 0) (flit (-1)) (flit 0);
    V3 (flit 0) (flit 0) (flit (-1));
    V3 (flit 0.707) (flit 0.707) (flit 0);
    V3 (flit 0.707) (flit (-0.707)) (flit 0);
    V3 (flit (-0.707)) (flit 0.707) (flit 0);
    V3 (flit (-0.707)) (flit (-0.707)) (flit 0) ].

(** The local variables of the loop next to the planner object. *)
Record LoopState : Type := {
  planner : StarPlanner;
  origin : nat;
  has_reached_goal : bool
}.

(** Lines 59-71: clear the arena and the closed set, insert the root with
    [f = h], start at [origin = 0].  [now] is [ros::Time::now().toSec()]. *)
Definition start_state (p : StarPlanner) (now : float) : simulation_state :=
  {| position := position_ p; velocity := velocity_ p;
     acceleration := V3 (flit 0) (flit 0) (flit 0); time := now |}.

Definition init_planner (p : StarPlanner) (now : float) : StarPlanner :=
  let p1 := set_closed_set (set_tree p []) [] in
  let p2 := push_node p1 (TreeNode_new 0 (start_state p now) Zero) in
  update_back p2
    (setCosts (treeHeuristicFunction p2 0) (treeHeuristicFunction p2 0)).

Definition init_loop (p : StarPlanner) (now : float) : LoopState :=
  {| planner := init_planner p now; origin := 0; has_reached_goal := false |}.

(** Lines 76-83: the limits handed to the simulator for this origin. *)
Definition local_limits (p : StarPlanner) (origin : nat) : simulation_limits :=
  let limits := lims_ p in
  let state := state (tree_at p origin) in
  set_max_xy_velocity_norm limits
    (fmin
       (fmin
          (computeMaxSpeedFromBrakingDistance
             (max_jerk_norm (lims_ p)) (max_acceleration_norm (lims_ p))
             (head2_norm (vsub (position state) (goal_ p))))
          (computeMaxSpeedFromBrakingDistance
             (max_jerk_norm (lims_ p)) (max_acceleration_norm (lims_ p))
             (max_sensor_range_ p)))
       (max_xy_velocity_norm (lims_ p))).

(** Lines 89-90: the guard of the goal/horizon branch.  [&&] binds tighter
    than [||]. *)
Definition goal_or_horizon (p : StarPlanner) (origin : nat) : bool :=
  ((1 <? origin)
   && flt (norm (vsub (getPosition (tree_at p origin)) (goal_ p)))
          (acceptance_radius_ p))
  || fge (norm (vsub (getPosition (tree_at p origin)) (position_ p)))
         (fmul (flit 2) (max_sensor_range_ p)).

(** Lines 91-93: the terminal node and the two entries of the closed set. *)
Definition terminal_node (p : StarPlanner) (origin : nat) : TreeNode :=
  TreeNode_new origin (simulation_state_at (flit 0) (goal_ p))
    (vsub (goal_ p) (getPosition (tree_at p origin))).

Definition goal_branch (p : StarPlanner) (origin : nat) : StarPlanner :=
  let p1 := push_node p (terminal_node p origin) in
  let p2 := push_closed p1 origin in
  push_closed p2 (length (tree_ p2) - 1).

(** Lines 104-112: the scan for a close node; [close_nodes] is 1 at the
    first node closer than [0.2f] (the [break]) and 0 when there is none. *)
Fixpoint close_nodes_scan (nodes : list TreeNode) (pt : Vector3f) : nat :=
  match nodes with
  | [] => 0
  | n :: rest =>
      if flt (norm (vsub (getPosition n) pt)) (flit 0.2) then 1
      else close_nodes_scan rest pt
  end.

(** Lines 99-121: one candidate direction.  The counter [children] of
    line 87 is incremented and never read; it is left out. *)
Definition expand_candidate (origin : nat) (limits : simulation_limits)
    (p : StarPlanner) (candidate : Vector3f) : StarPlanner :=
  let state := state (tree_at p origin) in
  let trajectory :=
    generate_trajectory limits state (flit 0.05) (qrot (q_ p) candidate)
      (tree_node_duration_ p) in
  let close_nodes := close_nodes_scan (tree_ p) (position (back trajectory)) in
  if close_nodes =? 0 then
    let p1 :=
      push_node p (TreeNode_new origin (back trajectory) (qrot (q_ p) candidate)) in
    let h := treeHeuristicFunction p1 (length (tree_ p1) - 1) in
    let p2 := update_back p1 (set_heuristic h) in
    update_back p2
      (set_total_cost
         (fadd
            (fadd
               (fsub (total_cost_ (tree_at p2 origin))
                     (heuristic_ (tree_at p2 origin)))
               (simpleCost (tree_at p2 (length (tree_ p2) - 1)) (goal_ p2)
                  (cost_params_ p2) (cloud_ p2)))
            h))
  else p.

(** Lines 128-136: the scan for the open node of least total score, from
    index [i] on. *)
Fixpoint best_scan (nodes : list TreeNode) (i : nat) (minimal_cost : float)
    (origin : nat) : float * nat :=
  match nodes with
  | [] => (minimal_cost, origin)
  | n :: rest =>
      if negb (closed_ n) && flt (total_cost_ n) minimal_cost
      then best_scan rest (S i) (total_cost_ n) i
      else best_scan rest (S i) minimal_cost origin
  end.

Definition next_origin (tree : list TreeNode) (origin : nat) : nat :=
  snd (best_scan tree 0 FLT_MAX origin).

(** Lines 98-141: expansion of the origin, closing it, the choice of the
    next origin and the check for a tree of one node. *)
Definition expand_branch (p : StarPlanner) (origin : nat) : LoopState :=
  let limits := local_limits p origin in
  let p1 := fold_left (expand_candidate origin limits) candidates p in
  let p2 := push_closed p1 origin in
  let p3 := set_tree p2 (update_at origin (set_closed true) (tree_ p2)) in
  {| planner := p3;
     origin := next_origin (tree_ p3) origin;
     has_reached_goal := length (tree_ p3) <=? 1 |}.

(** Lines 73-141: one iteration of [while (!has_reached_goal)]. *)
Definition loop_body (s : LoopState) : LoopState :=
  let p := planner s in
  if goal_or_horizon p (origin s) then
    {| planner := goal_branch p (origin s);
       origin := origin s;
       has_reached_goal := true |}
  else expand_branch p (origin s).

(** The loop, for at most [fuel] iterations; [None] when the loop is still
    running after them. *)
Fixpoint run_loop (fuel : nat) (s : LoopState) : option LoopState :=
  if has_reached_goal s then Some s
  else match fuel with
       | 0 => None
       | S fuel' => run_loop fuel' (loop_body s)
       end.

(** [n] iterations of the body, whatever the flag says. *)
Fixpoint iterate (n : nat) (s : LoopState) : LoopState :=
  match n with
  | 0 => s
  | S n' => iterate n' (loop_body s)
  end.

(** Lines 145-150: the walk from [tree_end] along the parent links; [None]
    when [fuel] steps do not reach the root. *)
Fixpoint collect_setpoints (fuel : nat) (tree : list TreeNode) (tree_end : nat)
    (path : list Vector3f) : option (list Vector3f) :=
  match tree_end with
  | 0 => Some path
  | S _ =>
      match fuel with
      | 0 => None
      | S fuel' =>
          collect_setpoints fuel' tree
            (origin_ (nth tree_end tree no_node))
            (path ++ [getSetpoint (nth tree_end tree no_node)])
      end
  end.

(** Line 152: the root's setpoint closes the path. *)
Definition extract_path (fuel : nat) (tree : list TreeNode) (origin : nat)
  : option (list Vector3f) :=
  match collect_setpoints fuel tree origin [] with
  | Some path => Some (path ++ [getSetpoint (nth 0 tree no_node)])
  | None => None
  end.

(** Lines 153-155.  [size()] is a [size_t]: [size() - 2] is computed modulo
    [2^64] and compared with 0 as an unsigned number. *)
Definition size_t_sub (a b : Z) : Z := ((a - b) mod 2 ^ 64)%Z.

Definition second_to_last_index (path : list Vector3f) : Z :=
  size_t_sub (Z.of_nat (length path)) 2.

(** What the end of [buildLookAheadTree] does: it returns with the planner
    updated, or it reads the path at an index that is not in it. *)
Inductive outcome : Type :=
| Returned (p : StarPlanner)
| OutOfRangeRead (index : Z) (size : nat).

(** [v[i]] for a [size_t] index: the element, or nothing when [i] is not
    below [v.size()]. *)
Definition vector_at {A : Type} (v : list A) (i : Z) : option A :=
  if (i <? Z.of_nat (length v))%Z then nth_error v (Z.to_nat i) else None.

Definition set_starting_direction_from_path (p : StarPlanner) : outcome :=
  let path := path_node_setpoints_ p in
  if (0 <=? second_to_last_index path)%Z then
    match vector_at path (second_to_last_index path) with
    | Some sp => Returned (set_starting_direction p sp)
    | None => OutOfRangeRead (second_to_last_index path) (length path)
    end
  else Returned p.

(** The whole function, with [fuel] bounding both loops. *)
Definition buildLookAheadTree (fuel : nat) (p : StarPlanner) (now : float)
  : option outcome :=
  match run_loop fuel (init_loop p now) with
  | None => None
  | Some s =>
      match extract_path fuel (tree_ (planner s)) (origin s) with
      | None => None
      | Some path =>
          Some (set_starting_direction_from_path (set_path (planner s) path))
      end
  end.

End Model.

(** ** A platform of exact rationals

    The interface instantiated with [Q]: literals are themselves, the
    comparisons are those of [Q], the norm is the Euclidean norm with the
    square root rounded down to six decimals (exact on axis-aligned vectors
    of integer length), the orientation is the identity and the opaque types
    are trivial. *)

Definition Qltb (a b : Q) : bool := negb (Qle_bool b a).
Definition Qgeb (a b : Q) : bool := Qle_bool b a.

Definition Qsqrt6 (q : Q) : Q :=
  Qmake (Z.sqrt (Qnum q * 10 ^ 12 / Zpos (Qden q))) (10 ^ 6).

Definition Qnorm (v : Vec3 Q) : Q :=
  Qsqrt6 (vx v * vx v + vy v * vy v + vz v * vz v)%Q.

Definition Qnorm2 (x y : Q) : Q := Qsqrt6 (x * x + y * y)%Q.

#[export] Instance QPlatform : Platform := {|
  float := Q;
  flit := fun q => q;
  FLT_MAX := 340282346638528859811704183484516925440%Q;
  fadd := Qplus;
  fsub := Qminus;
  fmul := Qmult;
  flt := Qltb;
  fge := Qgeb;
  norm := Qnorm;
  norm2 := Qnorm2;
  Quaternionf := unit;
  qrot := fun _ v => v;
  costParameters := unit;
  kdtree_t := unit;
  limits_rest := unit
|}.

(** ** Concrete collaborators and planners for the rational platform *)

Module Scenario.

Definition lims : simulation_limits :=
  {| max_xy_velocity_norm := 3%Q; max_acceleration_norm := 2%Q;
     max_jerk_norm := 20%Q; other_limits := tt |}.

(** A planner at the origin with the goal ten units ahead on the x axis,
    acceptance radius 0.5 and the given sensor range. *)
Definition planner_at_origin (range : Q) : StarPlanner :=
  {| tree_node_duration_ := 1%Q; tree_heuristic_weight_ := 1%Q;
     max_sensor_range_ := range; acceptance_radius_ := 0.5%Q;
     position_ := V3 0%Q 0%Q 0%Q; velocity_ := V3 0%Q 0%Q 0%Q;
     goal_ := V3 10%Q 0%Q 0%Q; q_ := tt; cost_params_ := tt; lims_ := lims;
     cloud_ := tt; tree_ := []; closed_set_ := [];
     path_node_setpoints_ := [];
     starting_direction_ := V3 0%Q 0%Q 0%Q |}.

(** A braking-distance limit that allows the distance itself as speed, and
    a cost function that is zero everywhere. *)
Definition speed_limit (jerk acc distance : Q) : Q := distance.

Definition no_cost (n : TreeNode) (goal : Vec3 Q) (c : unit) (k : unit) : Q :=
  0%Q.

(** Three simulators.  [sim_still] does not move (limits that allow no
    motion); [sim_to_post] ends every trajectory at the point (1, 0, 0);
    [sim_unit_step] moves by the direction vector. *)
Definition sim_still (l : simulation_limits) (s : simulation_state) (step : Q)
    (dir : Vec3 Q) (duration : Q) : list simulation_state := [s].

Definition sim_to_post (l : simulation_limits) (s : simulation_state)
    (step : Q) (dir : Vec3 Q) (duration : Q) : list simulation_state :=
  [simulation_state_at 1%Q (V3 1%Q 0%Q 0%Q)].

Definition sim_unit_step (l : simulation_limits) (s : simulation_state)
    (step : Q) (dir : Vec3 Q) (duration : Q) : list simulation_state :=
  [simulation_state_at 1%Q
     (V3 (vx (position s) + vx dir)%Q (vy (position s) + vy dir)%Q
         (vz (position s) + vz dir)%Q)].

(** The same planner with the goal two units ahead, and the loop head of its
    flight with [sim_unit_step] after two iterations: the root was expanded
    into nodes 1-10, node 1 at (1, 0, 0) into nodes 11-19, and the origin is
    node 11, at the goal. *)
Definition planner_near_goal : StarPlanner :=
  setGoal (planner_at_origin 100) (V3 2%Q 0%Q 0%Q).

Definition at_goal : LoopState :=
  iterate speed_limit no_cost sim_unit_step 2 (init_loop planner_near_goal 0%Q).

(** The planner after two iterations with [sim_to_post], with any closed
    set: the root and the node at (1, 0, 0), both closed; the origin is
    node 1. *)
Definition both_closed (closed : list nat) : LoopState :=
  {| planner :=
       set_closed_set
         (planner (iterate speed_limit no_cost sim_to_post 2 (init_loop (planner_at_origin 100) 0%Q)))
         closed;
     origin := 1;
     has_reached_goal := false |}.

(** A cost function that charges one unit per edge, the planner with the
    goal two units ahead and heuristic weight 2, and the loop head of its
    flight with [sim_unit_step] after the expansion of the root: the origin
    is node 1 at (1, 0, 0), with [h = 2] and [f = 3]. *)
Definition unit_cost (n : TreeNode) (goal : Vec3 Q) (c : unit) (k : unit) : Q :=
  1%Q.

Definition planner_weighted : StarPlanner :=
  {| tree_node_duration_ := 1%Q; tree_heuristic_weight_ := 2%Q;
     max_sensor_range_ := 100%Q; acceptance_radius_ := 0.5%Q;
     position_ := V3 0%Q 0%Q 0%Q; velocity_ := V3 0%Q 0%Q 0%Q;
     goal_ := V3 2%Q 0%Q 0%Q; q_ := tt; cost_params_ := tt; lims_ := lims;
     cloud_ := tt; tree_ := []; closed_set_ := [];
     path_node_setpoints_ := [];
     starting_direction_ := V3 0%Q 0%Q 0%Q |}.

Definition root_expanded : LoopState :=
  iterate speed_limit unit_cost sim_unit_step 1 (init_loop planner_weighted 0%Q).

(** A simulator that moves by the direction vector times the horizontal
    speed limit it is given, and one that does so only when that limit is 2
    and ends far away for any other limits. *)
Definition sim_at_speed (l : simulation_limits) (s : simulation_state)
    (step : Q) (dir : Vec3 Q) (duration : Q) : list simulation_state :=
  [simulation_state_at 1%Q
     (V3 (vx (position s) + max_xy_velocity_norm l * vx dir)%Q
         (vy (position s) + max_xy_velocity_norm l * vy dir)%Q
         (vz (position s) + max_xy_velocity_norm l * vz dir)%Q)].

Definition sim_at_speed_two (l : simulation_limits) (s : simulation_state)
    (step : Q) (dir : Vec3 Q) (duration : Q) : list simulation_state :=
  if Qeq_bool (max_xy_velocity_norm l) 2
  then sim_at_speed l s step dir duration
  else [simulation_state_at 1%Q (V3 1000%Q 0%Q 0%Q)].

End Scenario.

(** ** States at the head of the loop *)

Section Properties.

Context {P : Platform}.

Local Abbreviation Vector3f := (Vec3 float).

Variable computeMaxSpeedFromBrakingDistance : float -> float -> float -> float.
Variable simpleCost :
  TreeNode -> Vector3f -> costParameters -> kdtree_t -> float.
Variable generate_trajectory :
  simulation_limits -> simulation_state -> float -> Vector3f -> float ->
  list simulation_state.

Local Abbreviation body :=
  (loop_body computeMaxSpeedFromBrakingDistance simpleCost generate_trajectory).
Local Abbreviation expand :=
  (expand_branch computeMaxSpeedFromBrakingDistance simpleCost
     generate_trajectory).
Local Abbreviation limits_of := (local_limits computeMaxSpeedFromBrakingDistance).
Local Abbreviation candidate_step :=
  (expand_candidate simpleCost generate_trajectory).

(** The states in which the loop condition is evaluated and holds, in a call
    on planner [p0] at time [now]: the initial state, and the state after an
    iteration that did not raise [has_reached_goal]. *)
Inductive LoopHead (p0 : StarPlanner) (now : float) : LoopState -> Prop :=
| head_init : LoopHead p0 now (init_loop p0 now)
| head_next (s : LoopState) :
    LoopHead p0 now s ->
    has_reached_goal (body s) = false ->
    LoopHead p0 now (body s).

(** The node that line 115-119 appends for a candidate whose trajectory ends
    in [st], and that node as [simpleCost] sees it (heuristic set, no total
    score yet, open). *)
Definition as_costed (n : TreeNode) : TreeNode :=
  set_closed false (set_total_cost (flit 0) n).

Definition heuristic_at (p : StarPlanner) (pt : Vector3f) : float :=
  fmul (norm (vsub (goal_ p) pt)) (tree_heuristic_weight_ p).

Definition child_node (p : StarPlanner) (origin : nat) (st : simulation_state)
    (sp : Vector3f) : TreeNode :=
  let h := heuristic_at p (position st) in
  let fresh := set_heuristic h (TreeNode_new origin st sp) in
  set_total_cost
    (fadd
       (fadd
          (fsub (total_cost_ (tree_at p origin)) (heuristic_ (tree_at p origin)))
          (simpleCost fresh (goal_ p) (cost_params_ p) (cloud_ p)))
       h)
    fresh.

(** The terminal state of the trajectory simulated for a candidate. *)
Definition candidate_end (p : StarPlanner) (origin : nat)
    (limits : simulation_limits) (candidate : Vector3f) : simulation_state :=
  back (generate_trajectory limits (state (tree_at p origin)) (flit 0.05)
          (qrot (q_ p) candidate) (tree_node_duration_ p)).

(** Two nodes further apart than the deduplication radius: [dist < 0.2f] is
    false. *)
Definition apart (a b : TreeNode) : Prop :=
  flt (norm (vsub (getPosition a) (getPosition b))) (flit 0.2) = false.

(** Two nodes that differ at most in the closed flag. *)
Definition same_data (a b : TreeNode) : Prop :=
  set_closed false a = set_closed false b.

(** Arena [t'] continues arena [t]: it is at least as long, and the nodes of
    [t] are still there, index by index, with the same state, setpoint,
    scores and parent. *)
Definition extends (t t' : list TreeNode) : Prop :=
  length t <= length t' /\
  forall j, j < length t -> same_data (nth j t' no_node) (nth j t no_node).

(** The score rule of lines 116-119 at node [j] of the arena of [p]. *)
Definition score_rule (p : StarPlanner) (j : nat) : Prop :=
  let child := tree_at p j in
  let parent := tree_at p (origin_ child) in
  heuristic_ child = treeHeuristicFunction p j /\
  total_cost_ child =
  fadd
    (fadd (fsub (total_cost_ parent) (heuristic_ parent))
       (simpleCost (as_costed child) (goal_ p) (cost_params_ p) (cloud_ p)))
    (heuristic_ child).

(** The root as line 68-69 builds it. *)
Definition root_node (p0 : StarPlanner) (now : float) : TreeNode :=
  setCosts (heuristic_at p0 (position_ p0)) (heuristic_at p0 (position_ p0))
    (TreeNode_new 0 (start_state p0 now) Zero).

(** An arena built by expansion only: the root is the root, every other node
    has its parent below it and obeys the score rule, and no two nodes are
    within the deduplication radius. *)
Definition tree_ok (p : StarPlanner) (root : TreeNode) (t : list TreeNode)
  : Prop :=
  same_data (nth 0 t no_node) root /\
  0 < length t /\
  (forall j, 0 < j < length t ->
     origin_ (nth j t no_node) < j /\ score_rule (set_tree p t) j) /\
  (forall i j, i < j < length t -> apart (nth i t no_node) (nth j t no_node)).

Definition Inv (p0 : StarPlanner) (now : float) (s : LoopState) : Prop :=
  origin s < length (tree_ (planner s)) /\
  tree_ok (planner s) (root_node p0 now) (tree_ (planner s)) /\
  goal_ (planner s) = goal_ p0 /\
  position_ (planner s) = position_ p0 /\
  tree_heuristic_weight_ (planner s) = tree_heuristic_weight_ p0 /\
  lims_ (planner s) = lims_ p0.

(** The number of nodes in the arena after the iteration from [s] that are
    the root or were appended by expansion: all of them, except the terminal
    node when the goal/horizon branch is taken. *)
Definition expansion_nodes (s : LoopState) : nat :=
  if goal_or_horizon (planner s) (origin s)
  then length (tree_ (planner s))
  else length (tree_ (planner (body s))).

(** The flag is down after each of the first [n] iterations from [s]. *)
Definition running_upto (n : nat) (s : LoopState) : bool :=
  forallb
    (fun k =>
       negb (has_reached_goal
               (iterate computeMaxSpeedFromBrakingDistance simpleCost
                  generate_trajectory k s)))
    (seq 1 n).

(** A node as the expansion of origin [o] appends it: its parent is [o], it
    is open, and its setpoint is one of the candidates rotated by [q_]. *)
Definition rotated_candidate (p : StarPlanner) (v : Vector3f) : Prop :=
  exists c, In c candidates /\ v = qrot (q_ p) c.

Definition candidate_child (p : StarPlanner) (o : nat) (n : TreeNode) : Prop :=
  origin_ n = o /\ closed_ n = false /\ rotated_candidate p (setpoint n).

(** What the closed flags, the closed set and the setpoints look like at a
    loop head of a call on [p0]. *)
Definition Inv2 (p0 : StarPlanner) (s : LoopState) : Prop :=
  let t := tree_ (planner s) in
  q_ (planner s) = q_ p0 /\
  setpoint (nth 0 t no_node) = Zero /\
  (forall j, 0 < j < length t ->
     rotated_candidate p0 (setpoint (nth j t no_node)) /\
     closed_ (nth (origin_ (nth j t no_node)) t no_node) = true) /\
  (forall j, j < length t ->
     closed_ (nth j t no_node) = true <-> In j (closed_set_ (planner s))) /\
  (forall i, In i (closed_set_ (planner s)) -> i < length t).

(** The planner with other contents in the two output members. *)
Definition with_outputs (path : list Vector3f) (direction : Vector3f)
    (p : StarPlanner) : StarPlanner :=
  set_starting_direction (set_path p path) direction.

Definition with_outputs_state (path : list Vector3f) (direction : Vector3f)
    (s : LoopState) : LoopState :=
  {| planner := with_outputs path direction (planner s);
     origin := origin s;
     has_reached_goal := has_reached_goal s |}.

(** The planner with the four members that [buildLookAheadTree] writes
    emptied: what is left are its inputs. *)
Definition inputs_of (p : StarPlanner) : StarPlanner :=
  with_outputs [] Zero (set_closed_set (set_tree p []) []).




(** *** Vectors *)

Lemma update_at_length (A : Type) (f : A -> A) (l : list A) (i : nat) :
  length (update_at i f l) = length l.
Proof.
  revert i; induction l as [|x r IH]; intros [|j]; simpl; auto.
Qed.

Lemma update_at_same (A : Type) (f : A -> A) (d : A) (l : list A) (i : nat) :
  i < length l -> nth i (update_at i f l) d = f (nth i l d).
Proof.
  revert i; induction l as [|x r IH]; intros [|j] H; simpl in *;
    try lia; auto.
  apply IH; lia.
Qed.

Lemma update_at_other (A : Type) (f : A -> A) (d : A) (l : list A) (i j : nat) :
  i <> j -> nth j (update_at i f l) d = nth j l d.
Proof.
  revert i j; induction l as [|x r IH]; intros [|i] [|j] H; simpl;
    try congruence; auto.
Qed.

Lemma update_at_end (A : Type) (f : A -> A) (l : list A) (x : A) :
  update_at (length l) f (l ++ [x]) = l ++ [f x].
Proof.
  induction l as [|y r IH]; simpl; [reflexivity | now rewrite IH].
Qed.

Lemma nth_end (A : Type) (d : A) (l : list A) (x : A) :
  nth (length l) (l ++ [x]) d = x.
Proof.
  rewrite app_nth2, Nat.sub_diag by lia; reflexivity.
Qed.

Lemma length_snoc (A : Type) (l : list A) (x : A) :
  length (l ++ [x]) = S (length l).
Proof.
  rewrite length_app; simpl; lia.
Qed.

(** *** One candidate *)

Lemma close_nodes_scan_zero (nodes : list TreeNode) (pt : Vector3f) :
  close_nodes_scan nodes pt = 0 <->
  (forall n, In n nodes ->
     flt (norm (vsub (getPosition n) pt)) (flit 0.2) = false).
Proof.
  induction nodes as [|m r IH]; simpl.
  - split; [intros _ n [] | reflexivity].
  - destruct (flt (norm (vsub (getPosition m) pt)) (flit 0.2)) eqn:E.
    + split; [discriminate |].
      intros H. specialize (H m (or_introl eq_refl)). congruence.
    + rewrite IH. split.
      * intros H n [<- | Hn]; auto.
      * intros H n Hn; apply H; now right.
Qed.

(** A candidate either leaves the planner as it is, or no node is within the
    radius of its end point and the arena grows by [child_node]. *)
Lemma expand_candidate_cases (p : StarPlanner) (o : nat)
    (limits : simulation_limits) (c : Vector3f) :
  o < length (tree_ p) ->
  candidate_step o limits p c = p \/
  (close_nodes_scan (tree_ p) (position (candidate_end p o limits c)) = 0 /\
   candidate_step o limits p c =
   set_tree p
     (tree_ p ++ [child_node p o (candidate_end p o limits c) (qrot (q_ p) c)])).
Proof.
  intros Ho. unfold expand_candidate. fold (candidate_end p o limits c).
  destruct (close_nodes_scan (tree_ p) (position (candidate_end p o limits c)))
    as [|k] eqn:E; simpl Nat.eqb; cbv iota; [right | now left].
  split; [reflexivity |].
  set (st := candidate_end p o limits c).
  unfold update_back, push_node, treeHeuristicFunction, tree_at.
  simpl tree_. simpl goal_. simpl tree_heuristic_weight_.
  simpl cost_params_. simpl cloud_.
  rewrite !length_snoc, !update_at_length, !length_snoc. simpl Nat.sub.
  rewrite !Nat.sub_0_r.
  repeat first [rewrite update_at_end | rewrite nth_end].
  rewrite !app_nth1 by assumption.
  reflexivity.
Qed.

(** *** Nodes up to the closed flag *)

Lemma same_data_refl (a : TreeNode) : same_data a a.
Proof. reflexivity. Qed.

Lemma same_data_trans (a b c : TreeNode) :
  same_data a b -> same_data b c -> same_data a c.
Proof. unfold same_data; congruence. Qed.

Lemma same_data_fields (a b : TreeNode) :
  same_data a b ->
  state a = state b /\ setpoint a = setpoint b /\
  total_cost_ a = total_cost_ b /\ heuristic_ a = heuristic_ b /\
  origin_ a = origin_ b.
Proof.
  intros H. unfold same_data in H.
  repeat split.
  - exact (f_equal state H).
  - exact (f_equal setpoint H).
  - exact (f_equal total_cost_ H).
  - exact (f_equal heuristic_ H).
  - exact (f_equal origin_ H).
Qed.

Lemma same_data_costed (a b : TreeNode) :
  same_data a b -> as_costed a = as_costed b.
Proof.
  intros H. exact (f_equal (set_total_cost (flit 0)) H).
Qed.

Lemma same_data_position (a b : TreeNode) :
  same_data a b -> getPosition a = getPosition b.
Proof.
  intros H. unfold getPosition. now destruct (same_data_fields H) as [-> _].
Qed.

Lemma close_same_data (t : list TreeNode) (o j : nat) :
  same_data (nth j (update_at o (set_closed true) t) no_node)
            (nth j t no_node).
Proof.
  revert o j; induction t as [|x r IH]; intros [|o] [|j]; simpl;
    try reflexivity.
  apply IH.
Qed.

Lemma extends_refl (t : list TreeNode) : extends t t.
Proof. split; [lia | intros; apply same_data_refl]. Qed.

Lemma extends_trans (t1 t2 t3 : list TreeNode) :
  extends t1 t2 -> extends t2 t3 -> extends t1 t3.
Proof.
  intros [L1 H1] [L2 H2]. split; [lia |].
  intros j Hj. eapply same_data_trans; [apply H2; lia | apply H1; lia].
Qed.

Lemma extends_snoc (t : list TreeNode) (x : TreeNode) : extends t (t ++ [x]).
Proof.
  split; [rewrite length_snoc; lia |].
  intros j Hj. rewrite app_nth1 by assumption. apply same_data_refl.
Qed.

Lemma extends_close (t : list TreeNode) (o : nat) :
  extends t (update_at o (set_closed true) t).
Proof.
  split; [rewrite update_at_length; lia |].
  intros j _. apply close_same_data.
Qed.

(** *** The arena invariant *)

Lemma tree_ok_root (p0 : StarPlanner) (now : float) :
  tree_ (init_planner p0 now) = [root_node p0 now].
Proof. reflexivity. Qed.

Lemma tree_ok_init (p : StarPlanner) (root : TreeNode) :
  tree_ok p root [root].
Proof.
  split; [reflexivity | split; [simpl; lia | split; simpl; intros; lia]].
Qed.

Lemma tree_ok_pointwise (p : StarPlanner) (root : TreeNode)
    (t t' : list TreeNode) :
  length t' = length t ->
  (forall j, same_data (nth j t' no_node) (nth j t no_node)) ->
  tree_ok p root t -> tree_ok p root t'.
Proof.
  intros L S (R & N & H & A).
  split; [| split; [| split]].
  - eapply same_data_trans; [apply S | exact R].
  - lia.
  - intros j Hj. rewrite L in Hj. destruct (H j Hj) as [Hp [Hh Hc]].
    destruct (same_data_fields (S j)) as (_ & _ & Ec & Eh & Eo).
    split; [congruence |].
    unfold score_rule, treeHeuristicFunction, tree_at in *. simpl in *.
    rewrite Eo.
    destruct (same_data_fields (S (origin_ (nth j t no_node))))
      as (_ & _ & Ec' & Eh' & _).
    rewrite (same_data_costed (S j)), (same_data_position (S j)).
    rewrite Ec, Eh, Ec', Eh'. split; assumption.
  - intros i j Hij. rewrite L in Hij. unfold apart.
    rewrite (same_data_position (S i)), (same_data_position (S j)).
    apply A; assumption.
Qed.

Lemma tree_ok_close (p : StarPlanner) (root : TreeNode) (t : list TreeNode)
    (o : nat) :
  tree_ok p root t -> tree_ok p root (update_at o (set_closed true) t).
Proof.
  apply tree_ok_pointwise; [apply update_at_length |].
  intros j; apply close_same_data.
Qed.

Lemma tree_ok_append (p : StarPlanner) (root : TreeNode) (t : list TreeNode)
    (o : nat) (st : simulation_state) (sp : Vector3f) :
  tree_ok p root t ->
  o < length t ->
  close_nodes_scan t (position st) = 0 ->
  tree_ok p root (t ++ [child_node (set_tree p t) o st sp]).
Proof.
  intros (R & N & H & A) Ho Hs.
  split; [| split; [| split]].
  - rewrite app_nth1 by assumption. exact R.
  - rewrite length_snoc; lia.
  - intros j Hj. rewrite length_snoc in Hj.
    destruct (Nat.eq_dec j (length t)) as [-> | Hne].
    + rewrite nth_end. split; [exact Ho |].
      unfold score_rule, treeHeuristicFunction, tree_at. simpl.
      rewrite nth_end. simpl. rewrite app_nth1 by assumption.
      split; reflexivity.
    + assert (Hlt : j < length t) by lia.
      destruct (H j (conj (proj1 Hj) Hlt)) as [Hp Hr].
      rewrite app_nth1 by assumption. split; [exact Hp |].
      unfold score_rule, treeHeuristicFunction, tree_at in *. simpl in *.
      rewrite !app_nth1 by lia. exact Hr.
  - intros i j Hij. rewrite length_snoc in Hij.
    destruct (Nat.eq_dec j (length t)) as [-> | Hne].
    + rewrite nth_end, app_nth1 by lia.
      apply (proj1 (close_nodes_scan_zero t (position st)) Hs).
      apply nth_In; lia.
    + rewrite !app_nth1 by lia. apply A; lia.
Qed.

(** *** The expansion of an origin *)

Lemma candidate_step_frame (o : nat) (limits : simulation_limits)
    (p : StarPlanner) (c : Vector3f) :
  exists t, candidate_step o limits p c = set_tree p t.
Proof.
  unfold expand_candidate.
  destruct (_ =? 0).
  - eexists. unfold update_back, push_node. reflexivity.
  - exists (tree_ p). now destruct p.
Qed.

Lemma candidates_frame (o : nat) (limits : simulation_limits)
    (cs : list Vector3f) (p : StarPlanner) :
  exists t, fold_left (candidate_step o limits) cs p = set_tree p t.
Proof.
  revert p; induction cs as [|c cs IH]; intros p; simpl.
  - exists (tree_ p). now destruct p.
  - destruct (candidate_step_frame o limits p c) as [t1 E1]. rewrite E1.
    destruct (IH (set_tree p t1)) as [t E]. exists t. rewrite E. reflexivity.
Qed.

(** What one candidate keeps: the origin stays in range, the arena stays
    well formed and continues the arena [t0] the expansion started from. *)
Lemma candidate_step_keeps (root : TreeNode) (t0 : list TreeNode) (o : nat)
    (limits : simulation_limits) (p : StarPlanner) (c : Vector3f) :
  o < length (tree_ p) /\ tree_ok p root (tree_ p) /\ extends t0 (tree_ p) ->
  let p' := candidate_step o limits p c in
  o < length (tree_ p') /\ tree_ok p' root (tree_ p') /\ extends t0 (tree_ p').
Proof.
  intros (Ho & Hok & Hex) p'. subst p'.
  destruct (expand_candidate_cases p limits c Ho) as [-> | [Hs ->]];
    [auto |].
  simpl tree_. split; [rewrite length_snoc; lia |]. split.
  - change (tree_ok p root
              (tree_ p ++
               [child_node p o (candidate_end p o limits c) (qrot (q_ p) c)])).
    replace (child_node p o (candidate_end p o limits c) (qrot (q_ p) c))
      with (child_node (set_tree p (tree_ p)) o (candidate_end p o limits c)
              (qrot (q_ p) c)) by reflexivity.
    apply tree_ok_append; assumption.
  - eapply extends_trans; [exact Hex | apply extends_snoc].
Qed.

Lemma candidates_keep (root : TreeNode) (t0 : list TreeNode) (o : nat)
    (limits : simulation_limits) (cs : list Vector3f) (p : StarPlanner) :
  o < length (tree_ p) /\ tree_ok p root (tree_ p) /\ extends t0 (tree_ p) ->
  let p' := fold_left (candidate_step o limits) cs p in
  o < length (tree_ p') /\ tree_ok p' root (tree_ p') /\ extends t0 (tree_ p').
Proof.
  revert p; induction cs as [|c cs IH]; intros p H; simpl; [exact H |].
  apply IH. apply candidate_step_keeps. exact H.
Qed.

Lemma best_scan_range (nodes : list TreeNode) (i : nat) (m : float) (o : nat) :
  snd (best_scan nodes i m o) = o \/
  i <= snd (best_scan nodes i m o) < i + length nodes.
Proof.
  revert i m o; induction nodes as [|n r IH]; intros i m o; simpl;
    [now left |].
  destruct (negb (closed_ n) && flt (total_cost_ n) m).
  - right. destruct (IH (S i) (total_cost_ n) i) as [-> | H]; lia.
  - destruct (IH (S i) m o) as [-> | H]; [now left | right; lia].
Qed.

Lemma next_origin_range (t : list TreeNode) (o : nat) :
  o < length t -> next_origin t o < length t.
Proof.
  intros Ho. unfold next_origin.
  destruct (best_scan_range t 0 FLT_MAX o) as [-> | H]; lia.
Qed.

(** The planner after the expansion of [o], spelled out. *)
Lemma expand_planner (p : StarPlanner) (o : nat) :
  exists t,
    fold_left (candidate_step o (limits_of p o)) candidates p = set_tree p t /\
    planner (expand p o) =
    set_closed_set (set_tree p (update_at o (set_closed true) t))
      (closed_set_ p ++ [o]).
Proof.
  destruct (candidates_frame o (limits_of p o) candidates p) as [t E].
  exists t. split; [exact E |].
  unfold expand_branch. cbv zeta. cbn [planner]. rewrite E. reflexivity.
Qed.

Lemma expand_keeps (root : TreeNode) (p : StarPlanner) (o : nat) :
  o < length (tree_ p) -> tree_ok p root (tree_ p) ->
  let s' := expand p o in
  origin s' < length (tree_ (planner s')) /\
  tree_ok (planner s') root (tree_ (planner s')) /\
  extends (tree_ p) (tree_ (planner s')).
Proof.
  intros Ho Hok s'.
  destruct (expand_planner p o) as (t & E & Ep).
  pose proof (@candidates_keep root (tree_ p) o (limits_of p o) candidates p
                (conj Ho (conj Hok (extends_refl _)))) as K.
  cbv zeta in K. rewrite E in K. cbn [tree_ set_tree] in K.
  destruct K as (Ko & Kok & Kex).
  assert (T : tree_ (planner s') = update_at o (set_closed true) t)
    by (subst s'; rewrite Ep; reflexivity).
  split; [| split].
  - subst s'. unfold expand_branch at 1. cbv zeta. cbn [origin].
    apply next_origin_range.
    fold (expand p o). rewrite T, update_at_length. exact Ko.
  - rewrite T. subst s'. rewrite Ep.
    change (tree_ok p root (update_at o (set_closed true) t)).
    apply tree_ok_close. exact Kok.
  - rewrite T. eapply extends_trans; [exact Kex | apply extends_close].
Qed.

Lemma body_goal (s : LoopState) :
  goal_or_horizon (planner s) (origin s) = true ->
  body s = {| planner := goal_branch (planner s) (origin s);
              origin := origin s; has_reached_goal := true |}.
Proof. intros H. unfold loop_body. now rewrite H. Qed.

Lemma body_expand (s : LoopState) :
  goal_or_horizon (planner s) (origin s) = false ->
  body s = expand (planner s) (origin s).
Proof. intros H. unfold loop_body. now rewrite H. Qed.

(** An iteration that leaves the flag down went through the expansion. *)
Lemma body_running (s : LoopState) :
  has_reached_goal (body s) = false ->
  goal_or_horizon (planner s) (origin s) = false /\
  1 < length (tree_ (planner (body s))).
Proof.
  intros H.
  destruct (goal_or_horizon (planner s) (origin s)) eqn:G.
  - rewrite (body_goal s G) in H. discriminate.
  - split; [reflexivity |]. rewrite (body_expand s G) in *.
    unfold expand_branch in H. cbv zeta in H. cbn [has_reached_goal] in H.
    apply Nat.leb_gt in H. exact H.
Qed.

Lemma Inv_init (p0 : StarPlanner) (now : float) : Inv p0 now (init_loop p0 now).
Proof.
  unfold Inv. cbn [init_loop planner origin]. rewrite tree_ok_root.
  split; [simpl; lia |]. split; [apply tree_ok_init |].
  repeat split; reflexivity.
Qed.

Lemma Inv_expand (p0 : StarPlanner) (now : float) (s : LoopState) :
  Inv p0 now s -> Inv p0 now (expand (planner s) (origin s)).
Proof.
  intros (Ho & Hok & Hg & Hp & Hw & Hl).
  destruct (expand_keeps Ho Hok) as (Ko & Kok & _).
  destruct (expand_planner (planner s) (origin s)) as (t & _ & Ep).
  unfold Inv. split; [exact Ko |]. split; [exact Kok |].
  rewrite Ep. cbn. auto.
Qed.

Lemma LoopHead_Inv (p0 : StarPlanner) (now : float) (s : LoopState) :
  LoopHead p0 now s -> Inv p0 now s.
Proof.
  induction 1 as [|s Hs IH Hr].
  - apply Inv_init.
  - destruct (body_running s Hr) as [G _].
    rewrite (body_expand s G). apply Inv_expand. exact IH.
Qed.

Lemma LoopHead_running (p0 : StarPlanner) (now : float) (s : LoopState) :
  LoopHead p0 now s -> has_reached_goal s = false.
Proof. destruct 1; [reflexivity | assumption]. Qed.

(** Every index the planner reads in the arena is in the arena. *)
Lemma origin_in_range (p0 : StarPlanner) (now : float) (s : LoopState) :
  LoopHead p0 now s ->
  origin s < length (tree_ (planner s)) /\
  origin (body s) < length (tree_ (planner (body s))).
Proof.
  intros H. destruct (LoopHead_Inv H) as (Ho & Hok & _).
  split; [exact Ho |].
  destruct (goal_or_horizon (planner s) (origin s)) eqn:G.
  - rewrite (body_goal s G). cbn [planner origin goal_branch push_closed push_node set_closed_set set_tree tree_].
    rewrite length_snoc. lia.
  - rewrite (body_expand s G). now destruct (expand_keeps Ho Hok).
Qed.

(** *** After one iteration *)

Lemma goal_branch_tree (p : StarPlanner) (o : nat) :
  tree_ (goal_branch p o) = tree_ p ++ [terminal_node p o].
Proof. reflexivity. Qed.

(** The arena after the iteration from a loop head [s]: up to
    [expansion_nodes s] it is an arena built by expansion. *)
Lemma body_tree (p0 : StarPlanner) (now : float) (s : LoopState) :
  LoopHead p0 now s ->
  let t' := tree_ (planner (body s)) in
  extends (tree_ (planner s)) t' /\
  expansion_nodes s <= length t' /\
  tree_ok (planner (body s)) (root_node p0 now) (firstn (expansion_nodes s) t').
Proof.
  intros H t'. destruct (LoopHead_Inv H) as (Ho & Hok & _).
  subst t'. unfold expansion_nodes.
  destruct (goal_or_horizon (planner s) (origin s)) eqn:G.
  - rewrite (body_goal s G). cbn [planner]. rewrite goal_branch_tree.
    split; [apply extends_snoc |]. split; [rewrite length_snoc; lia |].
    rewrite firstn_app, Nat.sub_diag, firstn_all. simpl firstn.
    rewrite app_nil_r. exact Hok.
  - rewrite (body_expand s G).
    destruct (expand_keeps Ho Hok) as (_ & Kok & Kex).
    split; [exact Kex |]. split; [lia |].
    rewrite firstn_all. exact Kok.
Qed.

Lemma nth_firstn (A : Type) (d : A) (l : list A) (n j : nat) :
  j < n -> nth j (firstn n l) d = nth j l d.
Proof.
  revert n j; induction l as [|x r IH]; intros [|n] [|j] H; simpl;
    try lia; auto.
  apply IH; lia.
Qed.

Lemma score_rule_firstn (p : StarPlanner) (t : list TreeNode) (n j : nat) :
  j < n -> origin_ (nth j t no_node) < j ->
  score_rule (set_tree p (firstn n t)) j -> score_rule (set_tree p t) j.
Proof.
  intros Hj Hp Hr.
  unfold score_rule, treeHeuristicFunction, tree_at in *.
  cbn [tree_ set_tree goal_ tree_heuristic_weight_ cost_params_ cloud_] in *.
  rewrite !nth_firstn in Hr by lia. exact Hr.
Qed.

(** The walk along the parent links from [j] ends at the root within [j]
    steps when every parent is below its child. *)
Lemma collect_setpoints_reaches_root (t : list TreeNode) :
  (forall j, 0 < j < length t -> origin_ (nth j t no_node) < j) ->
  forall fuel j acc,
    j <= fuel -> j < length t ->
    exists path, collect_setpoints fuel t j acc = Some path /\
                 length path <= length acc + j.
Proof.
  intros Hp. induction fuel as [|fuel IH]; intros j acc Hf Hj.
  - assert (j = 0) by lia. subst. exists acc. simpl. split; [reflexivity | lia].
  - destruct j as [|j].
    + exists acc. simpl. split; [reflexivity | lia].
    + assert (Hlt : origin_ (nth (S j) t no_node) < S j) by (apply Hp; lia).
      destruct (IH (origin_ (nth (S j) t no_node))
                  (acc ++ [getSetpoint (nth (S j) t no_node)]))
        as (path & E & L); [lia | lia |].
      exists path. cbn [collect_setpoints]. split; [exact E |].
      rewrite length_snoc in L. lia.
Qed.

(** ** The arena *)

(** C6.  From one loop head to the state after the iteration the arena only
    grows: every node that was in it is still at its index with the same
    state, setpoint, scores and parent (only closed flags change).  In the
    arena after the iteration every node but the root has its parent at a
    strictly smaller index, the root is its own parent, and the walk of
    lines 147-150 from any node reaches the root (within as many steps as the
    node's index). *)
Theorem arena_append_only_parents_below (p0 : StarPlanner) (now : float)
    (s : LoopState) :
  LoopHead p0 now s ->
  let t := tree_ (planner s) in
  let t' := tree_ (planner (body s)) in
  extends t t' /\
  origin_ (nth 0 t' no_node) = 0 /\
  (forall j, 0 < j < length t' -> origin_ (nth j t' no_node) < j) /\
  (forall j, j < length t' ->
     exists path, collect_setpoints j t' j [] = Some path).
Proof.
  intros H t t'.
  destruct (body_tree H) as (Hex & Hn & (R & N & Hrule & _)).
  fold t' in Hex, Hn, R, N, Hrule.
  destruct (LoopHead_Inv H) as (Ho & _).
  assert (Hpar : forall j, 0 < j < length t' -> origin_ (nth j t' no_node) < j).
  { intros j Hj.
    destruct (Nat.lt_ge_cases j (expansion_nodes s)) as [Hlt | Hge].
    - rewrite length_firstn in Hrule.
      destruct (Hrule j) as [Hp _]; [lia |].
      now rewrite nth_firstn in Hp by assumption.
    - revert Hj Hge Hn. subst t'. unfold expansion_nodes.
      destruct (goal_or_horizon (planner s) (origin s)) eqn:G;
        [| intros; lia].
      rewrite (body_goal s G). cbn [planner]. rewrite goal_branch_tree.
      rewrite length_snoc. intros Hj Hge _.
      assert (j = length (tree_ (planner s))) as -> by lia.
      rewrite nth_end. exact Ho. }
  split; [exact Hex |]. split; [| split; [exact Hpar |]].
  - rewrite length_firstn in N. rewrite nth_firstn in R by lia.
    destruct (same_data_fields R) as (_ & _ & _ & _ & E). exact E.
  - intros j Hj.
    destruct (@collect_setpoints_reaches_root t' Hpar j j [] (le_n j) Hj)
      as (path & E & _).
    exists path. exact E.
Qed.

(** ** Scores *)

(** C3.  The root is inserted with [h = |goal - position| * weight] and
    [f = h].  In the arena after any iteration the goal and the weight are
    those of the call, the root still has [f = h], every node that is the
    root or was appended by expansion (index below [expansion_nodes], which
    leaves out the terminal node of the goal/horizon branch) has
    [h = |goal - position| * weight], and every such node but the root has its
    parent below it and
    [f = f(parent) - h(parent) + simpleCost(node) + h], the cost being that
    of the node as it was when it was appended. *)
Theorem score_update_rule (p0 : StarPlanner) (now : float) (s : LoopState) :
  LoopHead p0 now s ->
  let p1 := init_planner p0 now in
  let p' := planner (body s) in
  (getPosition (tree_at p1 0) = position_ p0 /\
   heuristic_ (tree_at p1 0) =
     fmul (norm (vsub (goal_ p0) (position_ p0))) (tree_heuristic_weight_ p0) /\
   total_cost_ (tree_at p1 0) = heuristic_ (tree_at p1 0)) /\
  (goal_ p' = goal_ p0 /\
   tree_heuristic_weight_ p' = tree_heuristic_weight_ p0) /\
  total_cost_ (tree_at p' 0) = heuristic_ (tree_at p' 0) /\
  (forall j, j < expansion_nodes s ->
     heuristic_ (tree_at p' j) =
     fmul (norm (vsub (goal_ p0) (getPosition (tree_at p' j))))
          (tree_heuristic_weight_ p0)) /\
  (forall j, 0 < j < expansion_nodes s ->
     let child := tree_at p' j in
     let parent := tree_at p' (origin_ child) in
     origin_ child < j /\
     total_cost_ child =
     fadd
       (fadd (fsub (total_cost_ parent) (heuristic_ parent))
          (simpleCost (as_costed child) (goal_ p') (cost_params_ p')
             (cloud_ p')))
       (heuristic_ child)).
Proof.
  intros H p1 p'.
  destruct (body_tree H) as (_ & Hn & (R & N & Hrule & _)).
  fold p' in Hn, R, N, Hrule. rewrite length_firstn in N, Hrule.
  rewrite nth_firstn in R by lia.
  destruct (LoopHead_Inv H) as (_ & _ & Hg & _ & Hw & _).
  assert (Hin : goal_ p' = goal_ p0 /\
                tree_heuristic_weight_ p' = tree_heuristic_weight_ p0).
  { subst p'. destruct (goal_or_horizon (planner s) (origin s)) eqn:G.
    - rewrite (body_goal s G). split; [exact Hg | exact Hw].
    - rewrite (body_expand s G).
      destruct (Inv_expand (LoopHead_Inv H)) as (_ & _ & Hg' & _ & Hw' & _).
      split; [exact Hg' | exact Hw']. }
  destruct Hin as [Hg' Hw'].
  assert (Hnode : forall j, 0 < j < expansion_nodes s ->
             origin_ (tree_at p' j) < j /\ score_rule p' j).
  { intros j Hj. destruct (Hrule j) as [Hp Hr]; [lia |].
    rewrite nth_firstn in Hp by lia. split; [exact Hp |].
    change (score_rule (set_tree p' (tree_ p')) j).
    apply (@score_rule_firstn p' (tree_ p') (expansion_nodes s) j);
      [lia | exact Hp | exact Hr]. }
  destruct (same_data_fields R) as (_ & _ & Ec & Eh & _).
  split; [repeat split |]. split; [split; assumption |].
  split; [| split].
  - unfold tree_at. rewrite Ec, Eh. reflexivity.
  - intros j Hj. destruct j as [|j].
    + unfold tree_at. rewrite Eh, (same_data_position R). reflexivity.
    + destruct (Hnode (S j)) as [_ [Hh _]]; [lia |].
      rewrite Hh. unfold treeHeuristicFunction. rewrite Hg', Hw'. reflexivity.
  - intros j Hj child parent. destruct (Hnode j Hj) as [Hp [_ Hf]].
    split; [exact Hp | exact Hf].
Qed.

(** ** Deduplication *)

(** C5.  In the arena after any iteration, any two nodes among the root and
    the nodes appended by expansion (so leaving out the terminal node of the
    goal/horizon branch) are not closer than [0.2f]: the test [dist < 0.2f]
    of line 108 is false for them.  A candidate is discarded exactly when some
    node of the arena is within [0.2f] of its end point, and the scan stops at
    the first such node: what follows it in the arena does not matter. *)
Theorem deduplication_radius (p0 : StarPlanner) (now : float) (s : LoopState) :
  LoopHead p0 now s ->
  let p' := planner (body s) in
  (forall i j, i < j < expansion_nodes s ->
     apart (tree_at p' i) (tree_at p' j)) /\
  (forall p o limits c n,
     In n (tree_ p) ->
     flt (norm (vsub (getPosition n) (position (candidate_end p o limits c))))
         (flit 0.2) = true ->
     candidate_step o limits p c = p) /\
  (forall p o limits c,
     o < length (tree_ p) ->
     (forall n, In n (tree_ p) ->
        flt (norm (vsub (getPosition n)
                        (position (candidate_end p o limits c))))
            (flit 0.2) = false) ->
     tree_ (candidate_step o limits p c) =
     tree_ p ++ [child_node p o (candidate_end p o limits c) (qrot (q_ p) c)]) /\
  (forall before n after pt,
     flt (norm (vsub (getPosition n) pt)) (flit 0.2) = true ->
     close_nodes_scan (before ++ n :: after) pt = 1).
Proof.
  intros H p'.
  destruct (body_tree H) as (_ & Hn & (_ & _ & _ & A)).
  fold p' in Hn, A. rewrite length_firstn in A.
  split; [| split; [| split]].
  - intros i j Hij. unfold tree_at.
    specialize (A i j). rewrite !nth_firstn in A by lia. apply A. lia.
  - intros p o limits c n Hin Hclose.
    unfold expand_candidate. fold (candidate_end p o limits c).
    destruct (close_nodes_scan (tree_ p)
                (position (candidate_end p o limits c))) as [|k] eqn:E;
      [| reflexivity].
    rewrite (proj1 (close_nodes_scan_zero _ _) E n Hin) in Hclose.
    discriminate.
  - intros p o limits c Ho Hfar.
    destruct (expand_candidate_cases p limits c Ho) as [E | [_ E]].
    + exfalso. revert E. unfold expand_candidate.
      fold (candidate_end p o limits c).
      rewrite (proj2 (close_nodes_scan_zero _ _) Hfar). simpl Nat.eqb.
      cbv iota. intros E. apply (f_equal (fun q => length (tree_ q))) in E.
      unfold update_back, push_node in E. cbn [tree_ set_tree] in E.
      rewrite !update_at_length, length_snoc in E. lia.
    + rewrite E. reflexivity.
  - intros before n after pt Hclose.
    induction before as [|m r IH]; simpl.
    + now rewrite Hclose.
    + destruct (flt (norm (vsub (getPosition m) pt)) (flit 0.2));
        [reflexivity | exact IH].
Qed.

(** ** The goal/horizon branch *)


(** C9, as the code has it.  When the goal/horizon branch is taken, the
    index of the origin and then the index of the terminal node are appended
    to [closed_set_]; the arena is the old arena with the terminal node
    appended, so the closed flag of every old node (the origin among them) is
    what it was, and the terminal node's flag is false; the flag
    [has_reached_goal] is raised. *)
Theorem goal_branch_closes_in_closed_set (s : LoopState) :
  goal_or_horizon (planner s) (origin s) = true ->
  let p := planner s in
  let p' := planner (body s) in
  closed_set_ p' = closed_set_ p ++ [origin s; length (tree_ p)] /\
  tree_ p' = tree_ p ++ [terminal_node p (origin s)] /\
  (forall j, j < length (tree_ p) ->
     closed_ (tree_at p' j) = closed_ (tree_at p j)) /\
  closed_ (tree_at p' (length (tree_ p))) = false /\
  has_reached_goal (body s) = true.
Proof.
  intros G p p'. subst p'. rewrite (body_goal s G). cbn [planner].
  split; [| split; [| split; [| split]]].
  - unfold goal_branch, push_closed, push_node.
    cbn [closed_set_ set_closed_set set_tree tree_].
    rewrite length_snoc, <- app_assoc. simpl. rewrite Nat.sub_0_r.
    reflexivity.
  - reflexivity.
  - intros j Hj. unfold tree_at. rewrite goal_branch_tree.
    rewrite app_nth1 by assumption. reflexivity.
  - unfold tree_at. rewrite goal_branch_tree, nth_end. reflexivity.
  - reflexivity.
Qed.

(** ** The check for a tree of one node *)

(** C10.  The arena never shrinks in an iteration.  Once it holds more than
    one node, an iteration that expands leaves the flag down: the check of
    line 139 fails.  So the check succeeds only in the first iteration: the
    loop head is the initial state, the expansion of the root appended
    nothing (the arena is the root, now closed), the origin is still the root
    and the path extracted from it is the single setpoint of the root. *)
Theorem stuck_only_when_root_has_no_child (p0 : StarPlanner) (now : float)
    (s : LoopState) :
  LoopHead p0 now s ->
  let t := tree_ (planner s) in
  let t' := tree_ (planner (body s)) in
  length t <= length t' /\
  (1 < length t -> goal_or_horizon (planner s) (origin s) = false ->
   has_reached_goal (body s) = false) /\
  (goal_or_horizon (planner s) (origin s) = false ->
   has_reached_goal (body s) = true ->
   s = init_loop p0 now /\
   t' = [set_closed true (root_node p0 now)] /\
   origin (body s) = 0 /\
   forall fuel, extract_path fuel t' (origin (body s)) = Some [Zero]).
Proof.
  intros H t t'.
  destruct (body_tree H) as (Hex & _). fold t t' in Hex.
  destruct Hex as [Hlen Hsame].
  assert (Hstuck : goal_or_horizon (planner s) (origin s) = false ->
                   has_reached_goal (body s) = (length t' <=? 1)).
  { intros G. subst t'. rewrite (body_expand s G). reflexivity. }
  split; [exact Hlen |]. split.
  - intros Ht G. rewrite (Hstuck G). apply Nat.leb_gt. lia.
  - intros G Hr. rewrite (Hstuck G) in Hr. apply Nat.leb_le in Hr.
    assert (Hs : s = init_loop p0 now).
    { destruct H as [|s0 H0 Hrun]; [reflexivity |].
      destruct (body_running s0 Hrun) as [_ Hbig]. fold t in Hbig. lia. }
    split; [exact Hs |].
    assert (Ht : t = [root_node p0 now]) by (subst t; rewrite Hs; reflexivity).
    assert (Ht' : t' = [set_closed true (root_node p0 now)]).
    { subst t'. rewrite (body_expand s G) in *.
      destruct (expand_planner (planner s) (origin s)) as (t1 & E1 & Ep).
      rewrite Ep in *. cbn [tree_ set_closed_set set_tree] in *.
      rewrite update_at_length in *.
      assert (Hk : extends t t1).
      { pose proof (@candidates_keep (root_node p0 now) t (origin s)
                      (limits_of (planner s) (origin s)) candidates (planner s))
          as K.
        destruct (LoopHead_Inv H) as (Ho & Hok & _).
        specialize (K (conj Ho (conj Hok (extends_refl _)))).
        cbv zeta in K. rewrite E1 in K. cbn [tree_ set_tree] in K.
        apply K. }
      destruct Hk as [Hk1 Hk2]. rewrite Ht in *. simpl length in *.
      rewrite Hs. cbn [origin init_loop].
      clear E1 Ep Hstuck Hsame.
      destruct t1 as [|x [|y r]]; cbn [length] in *; try lia.
      specialize (Hk2 0 (le_n 1)). cbn [nth] in Hk2.
      unfold same_data in Hk2.
      apply (f_equal (set_closed true)) in Hk2. cbn [update_at].
      exact (f_equal (fun n => [n]) Hk2). }
    split; [exact Ht' |].
    assert (Ho' : origin (body s) = 0).
    { assert (Hn : origin (body s) = next_origin t' (origin s))
        by (subst t'; rewrite (body_expand s G); reflexivity).
      assert (Hos : origin s = 0) by (rewrite Hs; reflexivity).
      rewrite Hn, Hos, Ht'. unfold next_origin.
      pose proof (best_scan_range [set_closed true (root_node p0 now)] 0
                    FLT_MAX 0) as R.
      cbn [length] in R. lia. }
    split; [exact Ho' |].
    intros fuel. rewrite Ho', Ht'. destruct fuel; reflexivity.
Qed.

(** ** The choice of the next origin *)

Section Selection.

(** What the theorem needs of [<]: it is irreflexive and transitive, and a
    score below [FLT_MAX] compares with every pair [a < b] (it is above [a]
    or below [b]).  IEEE [<] has the three properties: a comparison with a
    NaN is false, and a score below [FLT_MAX] is a number. *)
Hypothesis flt_irrefl : forall a, flt a a = false.
Hypothesis flt_trans :
  forall a b c, flt a b = true -> flt b c = true -> flt a c = true.
Hypothesis flt_between_below_max :
  forall a b c,
    flt c FLT_MAX = true -> flt a b = true ->
    flt a c = true \/ flt c b = true.

(** The scan from [i] with bound [m]: it keeps [(m, o)] when no open node is
    below [m]; otherwise it returns an open node below [m] that no open node
    beats and that beats every open node before it whose score is below
    [FLT_MAX]. *)
Lemma best_scan_spec (nodes : list TreeNode) (i : nat) (m : float) (o : nat) :
  (best_scan nodes i m o = (m, o) /\
   forall k, k < length nodes -> closed_ (nth k nodes no_node) = false ->
             flt (total_cost_ (nth k nodes no_node)) m = false) \/
  (exists k',
     k' < length nodes /\
     best_scan nodes i m o = (total_cost_ (nth k' nodes no_node), i + k') /\
     closed_ (nth k' nodes no_node) = false /\
     flt (total_cost_ (nth k' nodes no_node)) m = true /\
     (forall k, k < length nodes -> closed_ (nth k nodes no_node) = false ->
        flt (total_cost_ (nth k nodes no_node))
            (total_cost_ (nth k' nodes no_node)) = false) /\
     (forall k, k < k' -> closed_ (nth k nodes no_node) = false ->
        flt (total_cost_ (nth k nodes no_node)) FLT_MAX = true ->
        flt (total_cost_ (nth k' nodes no_node))
            (total_cost_ (nth k nodes no_node)) = true)).
Proof.
  revert i m o. induction nodes as [|n r IH]; intros i m o.
  - left. split; [reflexivity | simpl; intros; lia].
  - cbn [best_scan].
    destruct (negb (closed_ n) && flt (total_cost_ n) m) eqn:C.
    + apply andb_true_iff in C. destruct C as [Cn Cm].
      apply negb_true_iff in Cn. right.
      destruct (IH (S i) (total_cost_ n) i)
        as [[E Hall] | (k' & Hk & E & Hopen & Hlt & Hmin & Hfirst)].
      * exists 0. cbn [nth length]. rewrite E, Nat.add_0_r.
        split; [lia |]. split; [reflexivity |]. split; [exact Cn |].
        split; [exact Cm |]. split.
        -- intros [|k] Hlen Hop;
             [apply flt_irrefl | apply Hall; [cbn [length] in Hlen; lia | exact Hop]].
        -- intros k Hk; lia.
      * exists (S k'). cbn [nth length]. rewrite E.
        replace (S i + k') with (i + S k') by lia.
        split; [lia |]. split; [reflexivity |]. split; [exact Hopen |].
        split; [eapply flt_trans; eassumption |]. split.
        -- intros [|k] Hlen Hop;
             [| apply Hmin; [cbn [length] in Hlen; lia | exact Hop]].
           destruct (flt (total_cost_ n) (total_cost_ (nth k' r no_node)))
             eqn:F; [| reflexivity].
           rewrite <- (flt_irrefl (total_cost_ n)). symmetry.
           eapply flt_trans; eassumption.
        -- intros [|k] Hlt' Hop Hb;
             [exact Hlt | apply Hfirst; [lia | exact Hop | exact Hb]].
    + assert (Hn : closed_ n = false -> flt (total_cost_ n) m = false).
      { intros Hop. rewrite Hop in C. exact C. }
      destruct (IH (S i) m o)
        as [[E Hall] | (k' & Hk & E & Hopen & Hlt & Hmin & Hfirst)].
      * left. split; [exact E |].
        intros [|k] Hlen Hop; cbn [nth];
          [auto | apply Hall; [cbn [length] in Hlen; lia | exact Hop]].
      * right. exists (S k'). cbn [nth length]. rewrite E.
        replace (S i + k') with (i + S k') by lia.
        split; [lia |]. split; [reflexivity |]. split; [exact Hopen |].
        split; [exact Hlt |]. split.
        -- intros [|k] Hlen Hop;
             [| apply Hmin; [cbn [length] in Hlen; lia | exact Hop]].
           destruct (flt (total_cost_ n) (total_cost_ (nth k' r no_node)))
             eqn:F; [| reflexivity].
           rewrite <- (Hn Hop). symmetry. eapply flt_trans; eassumption.
        -- intros [|k] Hlt' Hop Hb;
             [| apply Hfirst; [lia | exact Hop | exact Hb]].
           destruct (flt_between_below_max _ _ (total_cost_ n) Hb Hlt)
             as [F | F]; [exact F |].
           rewrite (Hn Hop) in F. discriminate.
Qed.

(** C7, as the code has it.  After the expansion the next origin is the
    result of the scan of lines 128-136 over the whole arena.  The scan only
    ever moves the origin to an open node.  Whenever some open node has a
    score below [FLT_MAX], the next origin is an open node with a score below
    [FLT_MAX] that no open node of the arena undercuts, and every open node at
    a smaller index with a score below [FLT_MAX] has a strictly larger score
    (the first of equal scores wins).  When no open node has a score below
    [FLT_MAX], the origin stays where it was. *)
Theorem next_origin_is_first_least_open (p : StarPlanner) (o : nat) :
  let t := tree_ (planner (expand p o)) in
  let o' := next_origin t o in
  let f := fun j => total_cost_ (nth j t no_node) in
  let is_open := fun j => closed_ (nth j t no_node) = false in
  origin (expand p o) = o' /\
  (o' <> o -> o' < length t /\ is_open o') /\
  (forall i, i < length t -> is_open i -> flt (f i) FLT_MAX = true ->
     o' < length t /\ is_open o' /\ flt (f o') FLT_MAX = true /\
     (forall k, k < length t -> is_open k -> flt (f k) (f o') = false) /\
     (forall k, k < o' -> is_open k -> flt (f k) FLT_MAX = true ->
        flt (f o') (f k) = true)) /\
  ((forall i, i < length t -> is_open i -> flt (f i) FLT_MAX = false) ->
   o' = o).
Proof.
  intros t o' f is_open. subst o' f is_open. unfold next_origin.
  split; [reflexivity |].
  destruct (best_scan_spec t 0 FLT_MAX o)
    as [[E Hall] | (k' & Hk & E & Hopen & Hlt & Hmin & Hfirst)];
    rewrite E; cbn [snd]; simpl Nat.add.
  - split; [intros C; congruence |]. split; [| reflexivity].
    intros i Hi Hop Hlt. rewrite (Hall i Hi Hop) in Hlt. discriminate.
  - split; [intros _; split; assumption |]. split.
    + intros i Hi Hop _.
      split; [exact Hk |]. split; [exact Hopen |]. split; [exact Hlt |].
      split; [exact Hmin | exact Hfirst].
    + intros Hnone. rewrite (Hnone k' Hk Hopen) in Hlt. discriminate.
Qed.

End Selection.

(** ** Iterating the body *)

Lemma iterate_succ (n : nat) (s : LoopState) :
  iterate computeMaxSpeedFromBrakingDistance simpleCost generate_trajectory
    (S n) s =
  body (iterate computeMaxSpeedFromBrakingDistance simpleCost
          generate_trajectory n s).
Proof.
  revert s; induction n as [|n IH]; intros s; [reflexivity |].
  change (iterate computeMaxSpeedFromBrakingDistance simpleCost
            generate_trajectory (S n) (body s) =
          body (iterate computeMaxSpeedFromBrakingDistance simpleCost
                  generate_trajectory n (body s))).
  apply IH.
Qed.

Lemma run_loop_running (fuel : nat) (s : LoopState) :
  has_reached_goal s = false ->
  run_loop computeMaxSpeedFromBrakingDistance simpleCost generate_trajectory
    (S fuel) s =
  run_loop computeMaxSpeedFromBrakingDistance simpleCost generate_trajectory
    fuel (body s).
Proof.
  intros H. cbn [run_loop]. rewrite H. reflexivity.
Qed.

Lemma LoopHead_iterate (p0 : StarPlanner) (now : float) (n : nat) :
  running_upto n (init_loop p0 now) = true ->
  LoopHead p0 now
    (iterate computeMaxSpeedFromBrakingDistance simpleCost generate_trajectory
       n (init_loop p0 now)).
Proof.
  unfold running_upto. induction n as [|n IH]; intros H.
  - apply head_init.
  - rewrite seq_S, forallb_app in H. apply andb_true_iff in H.
    destruct H as [H1 H2]. cbn [forallb Nat.add] in H2.
    rewrite andb_true_r in H2. apply negb_true_iff in H2.
    rewrite iterate_succ in *. apply head_next; [apply IH; exact H1 | exact H2].
Qed.

(** ** The shape of an expansion *)

Lemma closed_after_update (l : list TreeNode) (o j : nat) :
  closed_ (nth j (update_at o (set_closed true) l) no_node) =
  if (j =? o) && (o <? length l) then true else closed_ (nth j l no_node).
Proof.
  revert o j; induction l as [|x r IH]; intros o j.
  - cbn [length].
    replace (o <? 0) with false by (symmetry; apply Nat.ltb_ge; lia).
    rewrite andb_false_r. destruct o; reflexivity.
  - destruct o as [|o], j as [|j]; cbn [update_at nth length]; try reflexivity.
    rewrite IH. reflexivity.
Qed.

Lemma candidate_step_length (o : nat) (limits : simulation_limits)
    (p : StarPlanner) (c : Vector3f) :
  length (tree_ (candidate_step o limits p c)) <= S (length (tree_ p)).
Proof.
  unfold expand_candidate. destruct (_ =? 0); [| lia].
  unfold update_back, push_node. cbn [tree_ set_tree].
  rewrite !update_at_length, length_snoc. lia.
Qed.

Lemma candidates_length (o : nat) (limits : simulation_limits)
    (cs : list Vector3f) (p : StarPlanner) :
  length (tree_ (fold_left (candidate_step o limits) cs p)) <=
  length (tree_ p) + length cs.
Proof.
  revert p; induction cs as [|c cs IH]; intros p; cbn [fold_left length];
    [lia |].
  pose proof (IH (candidate_step o limits p c)).
  pose proof (candidate_step_length o limits p c). lia.
Qed.

(** The candidates append, in order, at most one node each. *)
Lemma candidates_appended (o : nat) (limits : simulation_limits)
    (cs : list Vector3f) :
  incl cs candidates ->
  forall p, o < length (tree_ p) ->
  exists added,
    fold_left (candidate_step o limits) cs p = set_tree p (tree_ p ++ added) /\
    length added <= length cs /\
    Forall (candidate_child p o) added.
Proof.
  induction cs as [|c cs IH]; intros Hin p Ho.
  - exists []. cbn [fold_left length]. rewrite app_nil_r.
    split; [now destruct p | split; [lia | constructor]].
  - cbn [fold_left].
    assert (Hin' : incl cs candidates)
      by (intros x Hx; apply Hin; now right).
    destruct (expand_candidate_cases p limits c Ho) as [-> | [_ ->]].
    + destruct (IH Hin' p Ho) as (added & E & L & F).
      exists added. split; [exact E |]. split; [cbn [length]; lia | exact F].
    + match goal with |- context [set_tree p (tree_ p ++ [?n])] =>
        set (child := n) end.
      destruct (IH Hin' (set_tree p (tree_ p ++ [child]))) as (added & E & L & F).
      { cbn [tree_ set_tree]. rewrite length_snoc. lia. }
      exists (child :: added). rewrite E. cbn [tree_ set_tree].
      rewrite <- app_assoc. split; [reflexivity |].
      split; [cbn [length]; lia |].
      constructor; [| exact F].
      split; [reflexivity |]. split; [reflexivity |].
      exists c. split; [apply Hin; now left | reflexivity].
Qed.

Lemma candidates_count : length candidates = 10.
Proof. reflexivity. Qed.

(** The planner after the expansion of [o]: the arena with the appended
    children and [o] closed, the closed set with [o] appended. *)
Lemma expand_shape (p : StarPlanner) (o : nat) :
  o < length (tree_ p) ->
  exists added,
    length added <= 10 /\
    Forall (candidate_child p o) added /\
    planner (expand p o) =
    set_closed_set
      (set_tree p (update_at o (set_closed true) (tree_ p ++ added)))
      (closed_set_ p ++ [o]).
Proof.
  intros Ho.
  destruct (@candidates_appended o (limits_of p o) candidates
              (incl_refl _) p Ho) as (added & E & L & F).
  exists added. rewrite candidates_count in L.
  split; [exact L |]. split; [exact F |].
  destruct (expand_planner p o) as (t & E' & Ep).
  rewrite E in E'. apply (f_equal tree_) in E'. cbn [tree_ set_tree] in E'.
  rewrite Ep, <- E'. reflexivity.
Qed.

Lemma body_frame (s : LoopState) :
  exists t c, planner (body s) = set_closed_set (set_tree (planner s) t) c.
Proof.
  unfold loop_body. destruct (goal_or_horizon (planner s) (origin s)).
  - eexists. eexists. reflexivity.
  - destruct (expand_planner (planner s) (origin s)) as (t & _ & Ep).
    eexists. eexists. exact Ep.
Qed.

Lemma Inv2_init (p0 : StarPlanner) (now : float) : Inv2 p0 (init_loop p0 now).
Proof.
  unfold Inv2. cbn [init_loop planner]. rewrite tree_ok_root.
  cbn [length nth].
  split; [reflexivity |]. split; [reflexivity |].
  split; [intros j Hj; lia |]. split.
  - intros j Hj. assert (j = 0) as -> by lia. cbn [nth].
    split; [discriminate | intros []].
  - intros i [].
Qed.

Lemma Inv2_expand (p0 : StarPlanner) (now : float) (s : LoopState) :
  Inv p0 now s -> Inv2 p0 s -> Inv2 p0 (expand (planner s) (origin s)).
Proof.
  intros (Ho & (_ & Hpos & Hpar & _) & _) (Hq & Hroot & Hnodes & Hflags & Hset).
  destruct (expand_shape (planner s) Ho) as (added & _ & F & Ep).
  set (t := tree_ (planner s)) in *. set (o := origin s) in *.
  unfold Inv2. rewrite Ep. cbn [tree_ closed_set_ q_ set_closed_set set_tree].
  set (t' := update_at o (set_closed true) (t ++ added)).
  assert (Hlen : length t' = length t + length added)
    by (subst t'; rewrite update_at_length, length_app; reflexivity).
  assert (Hdata : forall j, same_data (nth j t' no_node)
                                      (nth j (t ++ added) no_node))
    by (intros j; apply close_same_data).
  assert (Hclosed : forall j,
             closed_ (nth j t' no_node) =
             if (j =? o) && (o <? length (t ++ added)) then true
             else closed_ (nth j (t ++ added) no_node))
    by (intros j; apply closed_after_update).
  assert (Ho' : (o <? length (t ++ added)) = true)
    by (apply Nat.ltb_lt; rewrite length_app; lia).
  assert (Hadded : forall j, length t <= j < length t' ->
             candidate_child (planner s) o (nth j (t ++ added) no_node)).
  { intros j Hj. rewrite app_nth2 by lia.
    apply (proj1 (Forall_forall _ _) F). apply nth_In. lia. }
  split; [exact Hq |]. split; [| split; [| split]].
  - destruct (same_data_fields (Hdata 0)) as (_ & -> & _).
    rewrite app_nth1 by assumption. exact Hroot.
  - intros j Hj. rewrite Hlen in Hj.
    destruct (same_data_fields (Hdata j)) as (_ & -> & _ & _ & ->).
    rewrite Hclosed, Ho', andb_true_r.
    destruct (Nat.lt_ge_cases j (length t)) as [Hlt | Hge].
    + rewrite app_nth1 by assumption.
      destruct (Hnodes j (conj (proj1 Hj) Hlt)) as [Hr Hc].
      split; [exact Hr |].
      destruct (origin_ (nth j t no_node) =? o) eqn:E; [reflexivity |].
      destruct (Hpar j (conj (proj1 Hj) Hlt)) as [Hbelow _].
      rewrite app_nth1 by lia. exact Hc.
    + destruct (Hadded j) as (Eo & _ & c & Hin & Ec); [lia |].
      split.
      * exists c. split; [exact Hin |]. rewrite Ec, Hq. reflexivity.
      * rewrite Eo, Nat.eqb_refl. reflexivity.
  - intros j Hj. rewrite Hlen in Hj. rewrite Hclosed, Ho', andb_true_r.
    rewrite in_app_iff. cbn [In].
    destruct (Nat.eqb_spec j o) as [-> | Hne].
    + split; [intros _; right; now left | reflexivity].
    + destruct (Nat.lt_ge_cases j (length t)) as [Hlt | Hge].
      * rewrite app_nth1 by assumption. rewrite (Hflags j Hlt).
        split; [intros H; now left | intros [H | [H | []]]; [exact H | congruence]].
      * destruct (Hadded j) as (_ & -> & _); [lia |].
        split; [discriminate |].
        intros [H | [H | []]]; [apply Hset in H; fold t in H; lia | congruence].
  - intros i Hi. rewrite Hlen. apply in_app_iff in Hi.
    destruct Hi as [Hi | [<- | []]]; [apply Hset in Hi; fold t in Hi; lia |].
    fold t in Ho. lia.
Qed.

Lemma LoopHead_Inv2 (p0 : StarPlanner) (now : float) (s : LoopState) :
  LoopHead p0 now s -> Inv2 p0 s.
Proof.
  induction 1 as [|s Hs IH Hr].
  - apply Inv2_init.
  - destruct (body_running s Hr) as [G _].
    rewrite (body_expand s G).
    apply (@Inv2_expand p0 now); [apply LoopHead_Inv; exact Hs | exact IH].
Qed.

(** ** Closed flags and the closed set *)

(** X1.  At a loop head the closed set lists exactly the nodes whose closed flag
    is set.  After any iteration (the last one included) every entry of the
    closed set is an index of the arena, and every node whose flag is set is
    listed. *)
Theorem closed_set_lists_closed_nodes (p0 : StarPlanner) (now : float)
    (s : LoopState) :
  LoopHead p0 now s ->
  let p := planner s in
  let p' := planner (body s) in
  (forall j, j < length (tree_ p) ->
     closed_ (tree_at p j) = true <-> In j (closed_set_ p)) /\
  (forall i, In i (closed_set_ p') -> i < length (tree_ p')) /\
  (forall j, j < length (tree_ p') ->
     closed_ (tree_at p' j) = true -> In j (closed_set_ p')).
Proof.
  intros H p p'.
  pose proof (LoopHead_Inv H) as HI.
  destruct (LoopHead_Inv2 H) as (_ & _ & _ & Hflags & Hset).
  fold p in Hflags, Hset.
  split; [exact Hflags |].
  subst p'. destruct (goal_or_horizon (planner s) (origin s)) eqn:G.
  - rewrite (body_goal s G). cbn [planner].
    unfold goal_branch, push_closed, push_node.
    cbn [closed_set_ tree_ set_closed_set set_tree]. fold p.
    destruct HI as (Ho & _). fold p in Ho.
    split.
    + intros i Hi. rewrite length_snoc.
      rewrite !in_app_iff in Hi. cbn [In] in Hi. rewrite length_snoc in Hi.
      destruct Hi as [[Hi | [<- | []]] | [<- | []]];
        [apply Hset in Hi; lia | lia | lia].
    + intros j Hj Hc. rewrite length_snoc in Hj. unfold tree_at in Hc.
      cbn [tree_ set_closed_set set_tree] in Hc.
      destruct (Nat.eq_dec j (length (tree_ p))) as [-> | Hne].
      * rewrite nth_end in Hc. discriminate.
      * rewrite app_nth1 in Hc by lia.
        rewrite !in_app_iff. left. left. apply Hflags; [lia | exact Hc].
  - rewrite (body_expand s G).
    destruct (@Inv2_expand p0 now s HI (LoopHead_Inv2 H))
      as (_ & _ & _ & Hflags' & Hset').
    split; [exact Hset' |].
    intros j Hj Hc. apply Hflags'; assumption.
Qed.

(** ** Open nodes are leaves *)

(** X2.  At a loop head, and after an iteration among the nodes built by
    expansion, the parent of every node but the root has its closed flag set:
    a node that has a child is closed. *)
Theorem parents_are_closed (p0 : StarPlanner) (now : float) (s : LoopState) :
  LoopHead p0 now s ->
  let p := planner s in
  let p' := planner (body s) in
  (forall j, 0 < j < length (tree_ p) ->
     closed_ (tree_at p (origin_ (tree_at p j))) = true) /\
  (forall j, 0 < j < expansion_nodes s ->
     closed_ (tree_at p' (origin_ (tree_at p' j))) = true).
Proof.
  intros H p p'.
  pose proof (LoopHead_Inv H) as HI.
  destruct (LoopHead_Inv2 H) as (_ & _ & Hnodes & _).
  fold p in Hnodes.
  assert (Hp : forall j, 0 < j < length (tree_ p) ->
             closed_ (tree_at p (origin_ (tree_at p j))) = true)
    by (intros j Hj; apply Hnodes; exact Hj).
  split; [exact Hp |].
  subst p'. unfold expansion_nodes.
  destruct (goal_or_horizon (planner s) (origin s)) eqn:G.
  - rewrite (body_goal s G). cbn [planner]. fold p.
    intros j Hj. unfold tree_at. rewrite goal_branch_tree.
    destruct HI as (_ & (_ & _ & Hpar & _) & _). fold p in Hpar.
    destruct (Hpar j Hj) as [Hbelow _].
    rewrite (app_nth1 _ _ _ (proj2 Hj)).
    rewrite app_nth1 by lia. apply Hp. exact Hj.
  - rewrite (body_expand s G).
    destruct (@Inv2_expand p0 now s HI (LoopHead_Inv2 H))
      as (_ & _ & Hnodes' & _).
    intros j Hj. apply Hnodes'. exact Hj.
Qed.

(** ** The growth of the arena *)

Lemma body_growth (s : LoopState) :
  length (tree_ (planner (body s))) <= length (tree_ (planner s)) + 10.
Proof.
  unfold loop_body. destruct (goal_or_horizon (planner s) (origin s)).
  - cbn [planner]. rewrite goal_branch_tree, length_snoc. lia.
  - pose proof (candidates_length (origin s)
                  (limits_of (planner s) (origin s)) candidates (planner s)) as L.
    destruct (expand_planner (planner s) (origin s)) as (t & E & Ep).
    rewrite Ep. rewrite E, candidates_count in L.
    cbn [tree_ set_closed_set set_tree] in *.
    rewrite update_at_length. exact L.
Qed.

(** X3.  An iteration appends at most ten nodes, so a call whose loop ends within
    [fuel] iterations leaves an arena of at most [1 + 10 * fuel] nodes. *)
Theorem arena_size_bound (p0 : StarPlanner) (now : float) (fuel : nat)
    (s : LoopState) :
  run_loop computeMaxSpeedFromBrakingDistance simpleCost generate_trajectory
    fuel (init_loop p0 now) = Some s ->
  length (tree_ (planner s)) <= 1 + 10 * fuel.
Proof.
  assert (G : forall n s0,
             run_loop computeMaxSpeedFromBrakingDistance simpleCost
               generate_trajectory n s0 = Some s ->
             length (tree_ (planner s)) <= length (tree_ (planner s0)) + 10 * n).
  { induction n as [|n IH]; intros s0 E; cbn [run_loop] in E;
      destruct (has_reached_goal s0); try discriminate;
      try (injection E as <-; lia).
    apply IH in E. pose proof (body_growth s0). lia. }
  intros E. apply G in E. cbn [planner init_loop] in E.
  rewrite tree_ok_root in E. cbn [length] in E. lia.
Qed.

(** ** The extracted path *)

(** The walk from [j] reads the arena only up to [j]. *)
Lemma collect_setpoints_prefix (t extra : list TreeNode) :
  (forall i, 0 < i < length t -> origin_ (nth i t no_node) < i) ->
  forall fuel j acc,
    j < length t ->
    collect_setpoints fuel (t ++ extra) j acc = collect_setpoints fuel t j acc.
Proof.
  intros Hp. induction fuel as [|fuel IH]; intros j acc Hj;
    destruct j as [|j]; cbn [collect_setpoints]; try reflexivity.
  rewrite !app_nth1 by assumption.
  apply IH. specialize (Hp (S j)). lia.
Qed.

(** What the walk from [j] collects: the setpoints of [j] and of its
    ancestors other than the root, at most [j] of them, none when [j] is the
    root. *)
Lemma collect_setpoints_shape (Q : Vector3f -> Prop) (t : list TreeNode) :
  (forall i, 0 < i < length t -> origin_ (nth i t no_node) < i) ->
  forall fuel j acc path,
    j < length t ->
    (forall i, 0 < i <= j -> Q (setpoint (nth i t no_node))) ->
    collect_setpoints fuel t j acc = Some path ->
    exists rest,
      path = acc ++ rest /\ length rest <= j /\ (j = 0 <-> rest = []) /\
      Forall Q rest /\
      (0 < j -> exists k, origin_ (nth k t no_node) = 0 /\ 0 < k <= j /\
                          last rest (setpoint (nth k t no_node)) =
                          setpoint (nth k t no_node)).
Proof.
  intros Hp. induction fuel as [|fuel IH]; intros j acc path Hj HQ E.
  - destruct j as [|j]; cbn [collect_setpoints] in E; [| discriminate].
    injection E as <-. exists []. rewrite app_nil_r.
    repeat split; auto; try lia.
  - destruct j as [|j]; cbn [collect_setpoints] in E.
    + injection E as <-. exists []. rewrite app_nil_r.
      repeat split; auto; try lia.
    + assert (Hlt : origin_ (nth (S j) t no_node) < S j) by (apply Hp; lia).
      apply IH in E; [| lia | intros i Hi; apply HQ; lia].
      destruct E as (rest & -> & L & Hz & F & Hk).
      exists (getSetpoint (nth (S j) t no_node) :: rest).
      rewrite <- app_assoc. split; [reflexivity |].
      split; [cbn [length]; lia |].
      split; [split; [lia | discriminate] |].
      split; [constructor; [apply HQ; lia | exact F] |].
      intros _.
      destruct (Nat.eq_dec (origin_ (nth (S j) t no_node)) 0) as [E0 | Hne].
      * exists (S j). split; [exact E0 |]. split; [lia |].
        rewrite (proj1 Hz E0). reflexivity.
      * destruct Hk as (k & Ek & Hk & El); [lia |].
        exists k. split; [exact Ek |]. split; [lia |].
        destruct rest as [|r rs]; [exfalso; apply Hne, Hz; reflexivity |].
        exact El.
Qed.

Lemma body_parents_below (p0 : StarPlanner) (now : float) (s : LoopState) :
  LoopHead p0 now s ->
  let t' := tree_ (planner (body s)) in
  forall j, 0 < j < length t' -> origin_ (nth j t' no_node) < j.
Proof.
  intros H t' j Hj.
  destruct (body_tree H) as (_ & Hn & (_ & _ & Hrule & _)).
  fold t' in Hn, Hrule.
  destruct (LoopHead_Inv H) as (Ho & _).
  destruct (Nat.lt_ge_cases j (expansion_nodes s)) as [Hlt | Hge].
  - rewrite length_firstn in Hrule.
    destruct (Hrule j) as [Hp _]; [lia |].
    now rewrite nth_firstn in Hp by assumption.
  - revert Hj Hge Hn. subst t'. unfold expansion_nodes.
    destruct (goal_or_horizon (planner s) (origin s)) eqn:G; [| intros; lia].
    rewrite (body_goal s G). cbn [planner]. rewrite goal_branch_tree.
    rewrite length_snoc. intros Hj Hge _.
    assert (j = length (tree_ (planner s))) as -> by lia.
    rewrite nth_end. exact Ho.
Qed.

(** The setpoints in the arena after an iteration: zero at the root, a
    rotated candidate at every node built by expansion; the origin is one of
    these nodes. *)
Lemma body_setpoints (p0 : StarPlanner) (now : float) (s : LoopState) :
  LoopHead p0 now s ->
  let s' := body s in
  let t' := tree_ (planner s') in
  origin s' < expansion_nodes s /\
  expansion_nodes s <= length t' /\
  setpoint (nth 0 t' no_node) = Zero /\
  forall i, 0 < i < expansion_nodes s ->
    rotated_candidate p0 (setpoint (nth i t' no_node)).
Proof.
  intros H s' t'. subst s' t'.
  pose proof (LoopHead_Inv H) as HI.
  pose proof (LoopHead_Inv2 H) as HI2.
  unfold expansion_nodes.
  destruct (goal_or_horizon (planner s) (origin s)) eqn:G.
  - rewrite (body_goal s G). cbn [planner origin]. rewrite goal_branch_tree.
    destruct HI as (Ho & (_ & Hpos & _) & _).
    destruct HI2 as (_ & Hroot & Hnodes & _).
    split; [exact Ho |]. split; [rewrite length_snoc; lia |].
    split; [rewrite app_nth1 by assumption; exact Hroot |].
    intros i Hi. rewrite app_nth1 by lia. apply Hnodes. exact Hi.
  - rewrite (body_expand s G).
    destruct (Inv_expand HI) as (Ho' & _).
    destruct (Inv2_expand HI HI2) as (_ & Hroot & Hnodes & _).
    split; [exact Ho' |]. split; [lia |]. split; [exact Hroot |].
    intros i Hi. apply Hnodes. exact Hi.
Qed.

(** X4.  After any iteration, the path extracted from the origin (with fuel for
    as many steps as the origin's index) is a list of rotated candidate
    directions, at most as many as the index of the origin and none exactly
    when the origin is the root, followed by the zero setpoint of the
    root. *)
Theorem extracted_path_shape (p0 : StarPlanner) (now : float) (s : LoopState) :
  LoopHead p0 now s ->
  let s' := body s in
  forall fuel, origin s' <= fuel ->
  exists commands,
    extract_path fuel (tree_ (planner s')) (origin s') =
      Some (commands ++ [Zero]) /\
    length commands <= origin s' /\
    (origin s' = 0 <-> commands = []) /\
    Forall (rotated_candidate p0) commands.
Proof.
  intros H s' fuel Hf.
  pose proof (body_parents_below H) as Hp.
  destruct (body_setpoints H) as (Ho & Hn & Hroot & Hrot).
  fold s' in Hp, Ho, Hn, Hroot, Hrot. cbv zeta in Hp.
  destruct (@collect_setpoints_reaches_root (tree_ (planner s')) Hp fuel
              (origin s') [] Hf) as (path & E & _); [lia |].
  destruct (@collect_setpoints_shape (rotated_candidate p0)
              (tree_ (planner s')) Hp fuel (origin s') [] path)
    as (rest & -> & L & Hz & F & _);
    [lia | intros i Hi; apply Hrot; lia | exact E |].
  exists rest. unfold extract_path. rewrite E. cbn [app].
  unfold getSetpoint. rewrite Hroot.
  repeat split; auto; apply Hz.
Qed.

(** X5.  When the goal/horizon branch is taken the origin stays where it was, and
    the path extracted afterwards is the path from that origin in the arena
    before the branch: the terminal node, and with it the setpoint towards
    the goal, is not on the path. *)
Theorem terminal_node_not_on_path (p0 : StarPlanner) (now : float)
    (s : LoopState) :
  LoopHead p0 now s ->
  goal_or_horizon (planner s) (origin s) = true ->
  origin (body s) < length (tree_ (planner s)) /\
  forall fuel,
    extract_path fuel (tree_ (planner (body s))) (origin (body s)) =
    extract_path fuel (tree_ (planner s)) (origin s).
Proof.
  intros H G.
  destruct (LoopHead_Inv H) as (Ho & (_ & Hpos & Hpar & _) & _).
  rewrite (body_goal s G). cbn [planner origin]. rewrite goal_branch_tree.
  split; [exact Ho |].
  intros fuel. unfold extract_path.
  rewrite collect_setpoints_prefix;
    [| intros i Hi; apply (Hpar i Hi) | exact Ho].
  rewrite app_nth1 by assumption. reflexivity.
Qed.

(** ** The whole function *)

Lemma last_any_default (A : Type) (l : list A) (d d' : A) :
  l <> [] -> last l d = last l d'.
Proof.
  induction l as [|x [|y r] IH]; intros H; [congruence | reflexivity |].
  change (last (y :: r) d = last (y :: r) d'). apply IH. discriminate.
Qed.

Lemma nth_error_last (A : Type) (l : list A) (d : A) :
  l <> [] -> nth_error l (length l - 1) = Some (last l d).
Proof.
  induction l as [|x [|y r] IH]; intros H; [congruence | reflexivity |].
  assert (IH' := IH ltac:(discriminate)).
  change (last (x :: y :: r) d) with (last (y :: r) d). rewrite <- IH'.
  cbn [length]. replace (S (S (length r)) - 1) with (S (length r)) by lia.
  replace (S (length r) - 1) with (length r) by lia. reflexivity.
Qed.

(** The state in which the loop ends is the state after an iteration from a
    loop head. *)
Lemma run_loop_final (p0 : StarPlanner) (now : float) (fuel : nat) :
  forall s0 s,
    LoopHead p0 now s0 ->
    run_loop computeMaxSpeedFromBrakingDistance simpleCost generate_trajectory
      fuel s0 = Some s ->
    exists s1, LoopHead p0 now s1 /\ s = body s1 /\ has_reached_goal s = true.
Proof.
  induction fuel as [|fuel IH]; intros s0 s H0 E; cbn [run_loop] in E;
    rewrite (LoopHead_running H0) in E; [discriminate |].
  destruct (has_reached_goal (body s0)) eqn:R.
  - destruct fuel; cbn [run_loop] in E; rewrite R in E; injection E as <-;
      exists s0; auto.
  - apply (IH (body s0)); [apply head_next; assumption | exact E].
Qed.

(** Lines 153-155 on a path of [n] entries.  The guard holds whatever [n]
    is.  For [n = 1] the read is at [2^64 - 1], outside the path.  For
    [n >= 2] an entry other than the last is stored in
    [starting_direction_], the one before the last when [n] fits a
    [size_t]. *)
Lemma read_second_to_last (p : StarPlanner) :
  let path := path_node_setpoints_ p in
  (length path = 1 ->
   set_starting_direction_from_path p =
   OutOfRangeRead 18446744073709551615 1) /\
  (2 <= length path ->
   exists k sp,
     k <= length path - 2 /\ nth_error path k = Some sp /\
     set_starting_direction_from_path p =
     Returned (set_starting_direction p sp) /\
     ((Z.of_nat (length path) < 2 ^ 64)%Z -> k = length path - 2)).
Proof.
  intros path. unfold set_starting_direction_from_path. fold path.
  assert (G : (0 <=? second_to_last_index path)%Z = true).
  { apply Z.leb_le. unfold second_to_last_index, size_t_sub.
    apply Z.mod_pos_bound. reflexivity. }
  rewrite G. unfold vector_at, second_to_last_index, size_t_sub.
  split.
  - intros ->. reflexivity.
  - intros Hn. set (n := length path) in *.
    set (i := ((Z.of_nat n - 2) mod 2 ^ 64)%Z).
    assert (Hi : (0 <= i <= Z.of_nat n - 2)%Z).
    { subst i. split; [apply Z.mod_pos_bound; reflexivity |].
      apply Z.mod_le; lia. }
    assert (L : (i <? Z.of_nat n)%Z = true) by (apply Z.ltb_lt; lia).
    rewrite L.
    destruct (nth_error path (Z.to_nat i)) as [sp |] eqn:E.
    + exists (Z.to_nat i), sp. split; [lia |]. split; [exact E |].
      split; [reflexivity |].
      intros B. subst i. rewrite Z.mod_small by lia. lia.
    + apply nth_error_None in E. fold n in E. lia.
Qed.

(** The path extracted after an iteration, for any fuel that suffices. *)
Lemma path_after_body (p0 : StarPlanner) (now : float) (s : LoopState) :
  LoopHead p0 now s ->
  let s' := body s in
  let t' := tree_ (planner s') in
  forall fuel path,
    extract_path fuel t' (origin s') = Some path ->
    exists commands,
      path = commands ++ [Zero] /\
      length commands <= origin s' /\
      (origin s' = 0 <-> commands = []) /\
      Forall (rotated_candidate p0) commands /\
      (0 < origin s' ->
       exists k, 0 < k <= origin s' /\ origin_ (nth k t' no_node) = 0 /\
                 last commands Zero = setpoint (nth k t' no_node)).
Proof.
  intros H s' t' fuel path E.
  pose proof (body_parents_below H) as Hp.
  destruct (body_setpoints H) as (Ho & Hn & Hroot & Hrot).
  fold s' in Hp, Ho, Hn, Hroot, Hrot. fold t' in Hp, Hn, Hroot, Hrot.
  cbv zeta in Hp.
  unfold extract_path in E.
  destruct (collect_setpoints fuel t' (origin s') []) as [path0 |] eqn:E0;
    [| discriminate].
  injection E as <-.
  destruct (@collect_setpoints_shape (rotated_candidate p0) t' Hp fuel
              (origin s') [] path0)
    as (rest & -> & L & Hz & F & Hk);
    [lia | intros i Hi; apply Hrot; lia | exact E0 |].
  exists rest. cbn [app]. unfold getSetpoint. rewrite Hroot.
  split; [reflexivity |]. split; [exact L |]. split; [exact Hz |].
  split; [exact F |].
  intros Hpos. destruct (Hk Hpos) as (k & Ek & Hr & El).
  exists k. split; [exact Hr |]. split; [exact Ek |].
  rewrite <- El. apply last_any_default. intros C. apply Hz in C. lia.
Qed.

Lemma path_total (p0 : StarPlanner) (now : float) (s : LoopState) :
  LoopHead p0 now s ->
  forall fuel, origin (body s) <= fuel ->
  exists path,
    extract_path fuel (tree_ (planner (body s))) (origin (body s)) = Some path.
Proof.
  intros H fuel Hf.
  pose proof (body_parents_below H) as Hp. cbv zeta in Hp.
  destruct (body_setpoints H) as (Ho & Hn & _).
  destruct (@collect_setpoints_reaches_root (tree_ (planner (body s))) Hp fuel
              (origin (body s)) [] Hf) as (path & E & _); [lia |].
  unfold extract_path. rewrite E. eexists. reflexivity.
Qed.

(** X6.  Whenever [buildLookAheadTree] returns, [path_node_setpoints_] is a
    non-empty list of candidate directions rotated by [q_], followed by the
    zero setpoint of the root, and [starting_direction_] is one of these
    rotated candidates.  When the path fits a [size_t], it is the last command
    before the root's, the setpoint of a child of the root. *)
Theorem starting_direction_is_a_candidate (p0 : StarPlanner) (now : float)
    (fuel : nat) (p' : StarPlanner) :
  buildLookAheadTree computeMaxSpeedFromBrakingDistance simpleCost
    generate_trajectory fuel p0 now = Some (Returned p') ->
  exists commands,
    path_node_setpoints_ p' = commands ++ [Zero] /\
    commands <> [] /\
    Forall (rotated_candidate p0) commands /\
    In (starting_direction_ p') commands /\
    rotated_candidate p0 (starting_direction_ p') /\
    ((Z.of_nat (length commands) < 2 ^ 64 - 1)%Z ->
     starting_direction_ p' = last commands Zero /\
     exists k, 0 < k < length (tree_ p') /\ origin_ (tree_at p' k) = 0 /\
               starting_direction_ p' = setpoint (tree_at p' k)).
Proof.
  unfold buildLookAheadTree. intros E.
  destruct (run_loop _ _ _ fuel (init_loop p0 now)) as [s |] eqn:R;
    [| discriminate].
  destruct (extract_path fuel (tree_ (planner s)) (origin s)) as [path |] eqn:X;
    [| discriminate].
  injection E as E.
  destruct (@run_loop_final p0 now fuel _ _ (head_init p0 now) R)
    as (s1 & H1 & -> & _).
  destruct (body_setpoints H1) as (Ho & Hn & _).
  destruct (path_after_body H1 _ X) as (commands & -> & L & Hz & F & Hk).
  set (s' := body s1) in *.
  destruct (read_second_to_last (set_path (planner s') (commands ++ [Zero])))
    as [R1 R2].
  cbn [path_node_setpoints_ set_path] in R1, R2.
  rewrite length_snoc in R1, R2.
  destruct commands as [|c0 cs].
  { rewrite R1 in E by reflexivity. discriminate. }
  destruct R2 as (k & sp & Hk1 & Hk2 & Hk3 & Hk4); [cbn [length]; lia |].
  rewrite Hk3 in E. injection E as <-.
  cbn [path_node_setpoints_ starting_direction_ tree_ set_starting_direction
         set_path].
  set (commands := c0 :: cs) in *.
  assert (Hlen : 0 < length commands) by (subst commands; cbn [length]; lia).
  rewrite nth_error_app1 in Hk2 by lia.
  assert (Hin : In sp commands) by (eapply nth_error_In; exact Hk2).
  exists commands. split; [reflexivity |].
  split; [subst commands; discriminate |]. split; [exact F |].
  split; [exact Hin |].
  split; [exact (proj1 (Forall_forall _ _) F sp Hin) |].
  intros B.
  assert (Ek : k = length commands - 1) by (rewrite Hk4; lia).
  assert (Hlast : sp = last commands Zero).
  { rewrite Ek, (@nth_error_last _ commands Zero) in Hk2
      by (subst commands; discriminate).
    congruence. }
  split; [exact Hlast |].
  destruct Hk as (j & Hj & Ej & El);
    [destruct (origin s'); [destruct (proj1 Hz eq_refl) |]; subst commands;
     try discriminate; lia |].
  exists j. unfold tree_at. cbn [tree_ set_starting_direction set_path].
  split; [lia |]. split; [exact Ej |]. congruence.
Qed.

(** X7.  When the loop ends, the function produces an outcome as soon as the fuel
    also covers the walk to the root.  The outcome is decided by the last
    origin: with the origin at the root the path has one entry and line 154
    reads index [2^64 - 1]; with any other origin the function returns. *)
Theorem outcome_by_last_origin (p0 : StarPlanner) (now : float) (fuel : nat)
    (s : LoopState) :
  run_loop computeMaxSpeedFromBrakingDistance simpleCost generate_trajectory
    fuel (init_loop p0 now) = Some s ->
  origin s <= fuel ->
  (origin s = 0 ->
   buildLookAheadTree computeMaxSpeedFromBrakingDistance simpleCost
     generate_trajectory fuel p0 now
   = Some (OutOfRangeRead 18446744073709551615 1)) /\
  (origin s <> 0 ->
   exists p',
     buildLookAheadTree computeMaxSpeedFromBrakingDistance simpleCost
       generate_trajectory fuel p0 now = Some (Returned p') /\
     tree_ p' = tree_ (planner s) /\
     closed_set_ p' = closed_set_ (planner s)).
Proof.
  intros R Hf. unfold buildLookAheadTree. rewrite R.
  destruct (@run_loop_final p0 now fuel _ _ (head_init p0 now) R)
    as (s1 & H1 & -> & _).
  destruct (path_total H1 Hf) as (path & X). rewrite X.
  destruct (path_after_body H1 _ X) as (commands & -> & L & Hz & _).
  set (s' := body s1) in *.
  destruct (read_second_to_last (set_path (planner s') (commands ++ [Zero])))
    as [R1 R2].
  cbn [path_node_setpoints_ set_path] in R1, R2.
  rewrite length_snoc in R1, R2.
  split.
  - intros E0. rewrite (proj1 Hz E0) in *. rewrite R1 by reflexivity.
    reflexivity.
  - intros Hne.
    destruct commands as [|c0 cs]; [exfalso; apply Hne, Hz; reflexivity |].
    destruct R2 as (k & sp & _ & _ & Hk3 & _); [cbn [length]; lia |].
    rewrite Hk3. eexists. split; [reflexivity |]. split; reflexivity.
Qed.

(** ** What a call reads and writes *)

Lemma size_guard_holds (path : list Vector3f) :
  (0 <=? second_to_last_index path)%Z = true.
Proof.
  apply Z.leb_le. unfold second_to_last_index, size_t_sub.
  apply Z.mod_pos_bound. reflexivity.
Qed.

Lemma run_loop_frame (fuel : nat) :
  forall s0 s,
    run_loop computeMaxSpeedFromBrakingDistance simpleCost generate_trajectory
      fuel s0 = Some s ->
    exists t c, planner s = set_closed_set (set_tree (planner s0) t) c.
Proof.
  assert (Here : forall s, exists t c,
             planner s = set_closed_set (set_tree (planner s) t) c).
  { intros s. exists (tree_ (planner s)), (closed_set_ (planner s)).
    now destruct (planner s). }
  induction fuel as [|fuel IH]; intros s0 s E; cbn [run_loop] in E;
    destruct (has_reached_goal s0); try discriminate;
    try (injection E as <-; apply Here).
  apply IH in E. destruct E as (t & c & E).
  destruct (body_frame s0) as (t0 & c0 & E0).
  exists t, c. rewrite E, E0. reflexivity.
Qed.

(** X8.  [buildLookAheadTree] writes [tree_], [closed_set_],
    [path_node_setpoints_] and [starting_direction_] and no other member:
    the planner it returns has the inputs of the planner it was called on
    (pose, goal, orientation, limits, cost parameters, cloud and the
    configured scalars). *)
Theorem inputs_are_left_alone (p0 : StarPlanner) (now : float) (fuel : nat)
    (p' : StarPlanner) :
  buildLookAheadTree computeMaxSpeedFromBrakingDistance simpleCost
    generate_trajectory fuel p0 now = Some (Returned p') ->
  inputs_of p' = inputs_of p0 /\
  exists t c path direction,
    p' = with_outputs path direction (set_closed_set (set_tree p0 t) c).
Proof.
  unfold buildLookAheadTree. intros E.
  destruct (run_loop _ _ _ fuel (init_loop p0 now)) as [s |] eqn:R;
    [| discriminate].
  destruct (extract_path fuel (tree_ (planner s)) (origin s)) as [path |];
    [| discriminate].
  injection E as E.
  destruct (run_loop_frame _ _ R) as (t & c & Es).
  unfold set_starting_direction_from_path in E.
  rewrite size_guard_holds in E.
  destruct (vector_at _ _) as [sp |]; [| discriminate].
  injection E as <-. rewrite Es.
  split; [reflexivity |].
  exists t, c, path, sp. reflexivity.
Qed.

Lemma candidate_step_outputs (path : list Vector3f) (d : Vector3f) (o : nat)
    (limits : simulation_limits) (p : StarPlanner) (c : Vector3f) :
  candidate_step o limits (with_outputs path d p) c =
  with_outputs path d (candidate_step o limits p c).
Proof.
  unfold expand_candidate.
  change (tree_ (with_outputs path d p)) with (tree_ p).
  change (tree_at (with_outputs path d p) o) with (tree_at p o).
  change (q_ (with_outputs path d p)) with (q_ p).
  change (tree_node_duration_ (with_outputs path d p))
    with (tree_node_duration_ p).
  destruct (_ =? 0); reflexivity.
Qed.

Lemma candidates_outputs (path : list Vector3f) (d : Vector3f) (o : nat)
    (limits : simulation_limits) (cs : list Vector3f) :
  forall p,
    fold_left (candidate_step o limits) cs (with_outputs path d p) =
    with_outputs path d (fold_left (candidate_step o limits) cs p).
Proof.
  induction cs as [|c cs IH]; intros p; cbn [fold_left]; [reflexivity |].
  rewrite candidate_step_outputs. apply IH.
Qed.

Lemma limits_outputs (path : list Vector3f) (d : Vector3f) (p : StarPlanner)
    (o : nat) :
  limits_of (with_outputs path d p) o = limits_of p o.
Proof. reflexivity. Qed.

Lemma guard_outputs (path : list Vector3f) (d : Vector3f) (p : StarPlanner)
    (o : nat) :
  goal_or_horizon (with_outputs path d p) o = goal_or_horizon p o.
Proof. reflexivity. Qed.

Lemma LoopState_ext (a b : LoopState) :
  planner a = planner b -> origin a = origin b ->
  has_reached_goal a = has_reached_goal b -> a = b.
Proof.
  destruct a, b. cbn [planner origin has_reached_goal].
  intros -> -> ->. reflexivity.
Qed.

Lemma expand_fields (p : StarPlanner) (o : nat) :
  origin (expand p o) = next_origin (tree_ (planner (expand p o))) o /\
  has_reached_goal (expand p o) = (length (tree_ (planner (expand p o))) <=? 1).
Proof. split; reflexivity. Qed.

Lemma expand_planner_outputs (path : list Vector3f) (d : Vector3f)
    (p : StarPlanner) (o : nat) :
  planner (expand (with_outputs path d p) o) =
  with_outputs path d (planner (expand p o)).
Proof.
  destruct (expand_planner p o) as (t & E & Ep).
  destruct (expand_planner (with_outputs path d p) o) as (t1 & E1 & Ep1).
  rewrite limits_outputs, candidates_outputs, E in E1.
  apply (f_equal tree_) in E1. cbn [tree_ set_tree with_outputs set_path
    set_starting_direction] in E1. subst t1.
  rewrite Ep1, Ep. reflexivity.
Qed.

Lemma state_outputs (path : list Vector3f) (d : Vector3f) (e e1 : LoopState)
    (o : nat) :
  planner e1 = with_outputs path d (planner e) ->
  origin e = next_origin (tree_ (planner e)) o ->
  origin e1 = next_origin (tree_ (planner e1)) o ->
  has_reached_goal e = (length (tree_ (planner e)) <=? 1) ->
  has_reached_goal e1 = (length (tree_ (planner e1)) <=? 1) ->
  e1 = with_outputs_state path d e.
Proof.
  intros Hp Fo Fo1 Fh Fh1.
  apply LoopState_ext; unfold with_outputs_state;
    cbn [planner origin has_reached_goal].
  - exact Hp.
  - rewrite Fo1, Hp, Fo. reflexivity.
  - rewrite Fh1, Hp, Fh. reflexivity.
Qed.

Lemma expand_outputs (path : list Vector3f) (d : Vector3f) (p : StarPlanner)
    (o : nat) :
  expand (with_outputs path d p) o = with_outputs_state path d (expand p o).
Proof.
  apply (@state_outputs path d _ _ o).
  - apply expand_planner_outputs.
  - apply expand_fields.
  - apply expand_fields.
  - apply expand_fields.
  - apply expand_fields.
Qed.

Lemma body_outputs (path : list Vector3f) (d : Vector3f) (s : LoopState) :
  body (with_outputs_state path d s) = with_outputs_state path d (body s).
Proof.
  destruct s as [p o h]. unfold loop_body.
  cbn [with_outputs_state planner origin]. rewrite guard_outputs.
  destruct (goal_or_horizon p o); [reflexivity | apply expand_outputs].
Qed.

Lemma run_loop_outputs (path : list Vector3f) (d : Vector3f) (fuel : nat) :
  forall s,
    run_loop computeMaxSpeedFromBrakingDistance simpleCost generate_trajectory
      fuel (with_outputs_state path d s) =
    option_map (with_outputs_state path d)
      (run_loop computeMaxSpeedFromBrakingDistance simpleCost
         generate_trajectory fuel s).
Proof.
  induction fuel as [|fuel IH]; intros s; cbn [run_loop];
    change (has_reached_goal (with_outputs_state path d s))
      with (has_reached_goal s);
    destruct (has_reached_goal s); try reflexivity.
  rewrite body_outputs. apply IH.
Qed.

Lemma build_outputs (path : list Vector3f) (d : Vector3f) (fuel : nat)
    (p : StarPlanner) (now : float) :
  buildLookAheadTree computeMaxSpeedFromBrakingDistance simpleCost
    generate_trajectory fuel (with_outputs path d p) now =
  buildLookAheadTree computeMaxSpeedFromBrakingDistance simpleCost
    generate_trajectory fuel p now.
Proof.
  unfold buildLookAheadTree.
  change (init_loop (with_outputs path d p) now)
    with (with_outputs_state path d (init_loop p now)).
  rewrite run_loop_outputs.
  destruct (run_loop _ _ _ fuel (init_loop p now)) as [s |];
    [| reflexivity].
  cbn [option_map].
  change (tree_ (planner (with_outputs_state path d s)))
    with (tree_ (planner s)).
  change (origin (with_outputs_state path d s)) with (origin s).
  destruct (extract_path fuel (tree_ (planner s)) (origin s)) as [path' |];
    [| reflexivity].
  unfold set_starting_direction_from_path.
  change (path_node_setpoints_
            (set_path (planner (with_outputs_state path d s)) path'))
    with path'.
  change (path_node_setpoints_ (set_path (planner s) path')) with path'.
  rewrite size_guard_holds.
  destruct (vector_at path' (second_to_last_index path')); reflexivity.
Qed.

(** X9.  The outcome of a call is a function of the inputs: two planners that
    agree on every member except [tree_], [closed_set_],
    [path_node_setpoints_] and [starting_direction_] give the same outcome,
    whatever an earlier call left in these four members. *)
Theorem outcome_depends_on_inputs_only (p q : StarPlanner) (now : float)
    (fuel : nat) :
  inputs_of p = inputs_of q ->
  buildLookAheadTree computeMaxSpeedFromBrakingDistance simpleCost
    generate_trajectory fuel p now =
  buildLookAheadTree computeMaxSpeedFromBrakingDistance simpleCost
    generate_trajectory fuel q now.
Proof.
  assert (R : forall r,
             buildLookAheadTree computeMaxSpeedFromBrakingDistance simpleCost
               generate_trajectory fuel (inputs_of r) now =
             buildLookAheadTree computeMaxSpeedFromBrakingDistance simpleCost
               generate_trajectory fuel r now).
  { intros r. unfold inputs_of. rewrite build_outputs. reflexivity. }
  intros H. rewrite <- (R p), <- (R q), H. reflexivity.
Qed.

(** ** Dead ends *)

(** The scan either keeps what it was given or moves the origin to an open
    node. *)
Lemma best_scan_kept_or_open (nodes : list TreeNode) :
  forall i m o,
    best_scan nodes i m o = (m, o) \/
    exists k, k < length nodes /\ snd (best_scan nodes i m o) = i + k /\
              closed_ (nth k nodes no_node) = false.
Proof.
  induction nodes as [|n r IH]; intros i m o; cbn [best_scan];
    [now left |].
  destruct (negb (closed_ n) && flt (total_cost_ n) m) eqn:C.
  - right. apply andb_true_iff in C. destruct C as [Cn _].
    apply negb_true_iff in Cn.
    destruct (IH (S i) (total_cost_ n) i) as [-> | (k & Hk & E & Hc)].
    + exists 0. cbn [length nth snd]. split; [lia |]. split; [lia | exact Cn].
    + exists (S k). cbn [length nth]. split; [lia |].
      split; [rewrite E; lia | exact Hc].
  - destruct (IH (S i) m o) as [-> | (k & Hk & E & Hc)]; [now left |].
    right. exists (S k). cbn [length nth]. split; [lia |].
    split; [rewrite E; lia | exact Hc].
Qed.

Lemma next_origin_closed (t : list TreeNode) (o : nat) :
  closed_ (nth (next_origin t o) t no_node) = true -> next_origin t o = o.
Proof.
  unfold next_origin. intros Hc.
  destruct (best_scan_kept_or_open t 0 FLT_MAX o) as [-> | (k & _ & E & Hk)];
    [reflexivity |].
  rewrite E in Hc. cbn [Nat.add] in Hc. congruence.
Qed.

(** What the guard, the limits and the simulated end points at [o] read is
    the same after the expansion of [o] as before it. *)
Lemma expand_keeps_origin_data (p : StarPlanner) (o : nat) :
  o < length (tree_ p) ->
  let p' := planner (expand p o) in
  goal_or_horizon p' o = goal_or_horizon p o /\
  (forall c, candidate_end p' o (limits_of p' o) c =
             candidate_end p o (limits_of p o) c) /\
  extends (tree_ p) (tree_ p') /\
  closed_ (tree_at p' o) = true.
Proof.
  intros Ho p'.
  destruct (expand_shape p Ho) as (added & _ & _ & Ep).
  subst p'. rewrite Ep.
  set (t' := update_at o (set_closed true) (tree_ p ++ added)).
  assert (Hd : same_data (nth o t' no_node) (nth o (tree_ p) no_node)).
  { subst t'. eapply same_data_trans; [apply close_same_data |].
    rewrite app_nth1 by assumption. apply same_data_refl. }
  destruct (same_data_fields Hd) as (Est & _).
  split; [| split; [| split]].
  - unfold goal_or_horizon, tree_at, getPosition.
    cbn [tree_ goal_ acceptance_radius_ position_ max_sensor_range_
           set_closed_set set_tree].
    fold t'. rewrite Est. reflexivity.
  - intros c. unfold candidate_end, local_limits, tree_at.
    cbn [tree_ goal_ lims_ q_ tree_node_duration_ max_sensor_range_
           set_closed_set set_tree].
    fold t'. rewrite Est. reflexivity.
  - cbn [tree_ set_closed_set set_tree]. fold t'. subst t'.
    eapply extends_trans; [| apply extends_close].
    split; [rewrite length_app; lia |].
    intros j Hj. rewrite app_nth1 by assumption. apply same_data_refl.
  - unfold tree_at. cbn [tree_ set_closed_set set_tree]. fold t'. subst t'.
    rewrite closed_after_update, Nat.eqb_refl.
    replace (o <? length (tree_ p ++ added)) with true; [reflexivity |].
    symmetry. apply Nat.ltb_lt. rewrite length_app. lia.
Qed.


Lemma candidate_step_appends (o : nat) (limits : simulation_limits)
    (p : StarPlanner) (c : Vector3f) :
  o < length (tree_ p) ->
  close_nodes_scan (tree_ p) (position (candidate_end p o limits c)) = 0 ->
  candidate_step o limits p c =
  set_tree p
    (tree_ p ++ [child_node p o (candidate_end p o limits c) (qrot (q_ p) c)]).
Proof.
  intros Ho Hs.
  destruct (expand_candidate_cases p limits c Ho) as [E | [_ E]];
    [| exact E].
  exfalso. revert E. unfold expand_candidate.
  fold (candidate_end p o limits c). rewrite Hs. simpl Nat.eqb. cbv iota.
  intros E. apply (f_equal (fun q => length (tree_ q))) in E.
  unfold update_back, push_node in E. cbn [tree_ set_tree] in E.
  rewrite !update_at_length, length_snoc in E. lia.
Qed.

Lemma candidate_step_rejects (o : nat) (limits : simulation_limits)
    (p : StarPlanner) (c : Vector3f) :
  close_nodes_scan (tree_ p) (position (candidate_end p o limits c)) <> 0 ->
  candidate_step o limits p c = p.
Proof.
  intros H. unfold expand_candidate. fold (candidate_end p o limits c).
  destruct (close_nodes_scan (tree_ p)
              (position (candidate_end p o limits c))); [congruence |].
  reflexivity.
Qed.







(** X11.  The goal/horizon branch is only ever taken at an open origin.  So when
    the loop is left through it, the origin is listed in the closed set with
    its closed flag still down, and so is the terminal node. *)
Theorem goal_branch_at_open_origin (p0 : StarPlanner) (now : float)
    (s : LoopState) :
  LoopHead p0 now s ->
  goal_or_horizon (planner s) (origin s) = true ->
  let p' := planner (body s) in
  closed_ (tree_at (planner s) (origin s)) = false /\
  closed_ (tree_at p' (origin s)) = false /\
  closed_ (tree_at p' (length (tree_ (planner s)))) = false /\
  In (origin s) (closed_set_ p') /\
  In (length (tree_ (planner s))) (closed_set_ p').
Proof.
  intros H G p'.
  assert (Hopen : closed_ (tree_at (planner s) (origin s)) = false).
  { destruct (closed_ (tree_at (planner s) (origin s))) eqn:Hc;
      [| reflexivity].
    exfalso. destruct H as [|s0 H0 Hrun]; [discriminate |].
    destruct (body_running s0 Hrun) as [G0 _].
    destruct (LoopHead_Inv H0) as (Ho & _).
    revert Hc G. rewrite (body_expand s0 G0). intros Hc G.
    destruct (expand_fields (planner s0) (origin s0)) as [Fo _].
    set (e := expand (planner s0) (origin s0)) in *.
    assert (Eo : origin e = origin s0).
    { rewrite Fo. apply next_origin_closed. rewrite <- Fo. exact Hc. }
    destruct (expand_keeps_origin_data (planner s0) Ho) as (Hg & _).
    fold e in Hg. rewrite Eo, Hg in G. congruence. }
  destruct (LoopHead_Inv H) as (Ho & _).
  subst p'. rewrite (body_goal s G). cbn [planner].
  unfold tree_at. rewrite goal_branch_tree.
  split; [exact Hopen |]. split; [| split; [| split]].
  - rewrite app_nth1 by assumption. exact Hopen.
  - rewrite nth_end. reflexivity.
  - unfold goal_branch, push_closed, push_node.
    cbn [closed_set_ set_closed_set set_tree tree_].
    rewrite !in_app_iff. left. right. now left.
  - unfold goal_branch, push_closed, push_node.
    cbn [closed_set_ set_closed_set set_tree tree_].
    rewrite length_snoc, !in_app_iff. right. left. lia.
Qed.


(** *** What the candidates loop does with the simulator *)

Lemma close_nodes_scan_found (nodes : list TreeNode) (pt : Vector3f) :
  close_nodes_scan nodes pt <> 0 ->
  exists n, In n nodes /\
            flt (norm (vsub (getPosition n) pt)) (flit 0.2) = true.
Proof.
  induction nodes as [|m r IH]; cbn [close_nodes_scan]; [congruence |].
  destruct (flt (norm (vsub (getPosition m) pt)) (flit 0.2)) eqn:E.
  - intros _. exists m. split; [now left | exact E].
  - intros H. destruct (IH H) as (n & Hn & Hc).
    exists n. split; [now right | exact Hc].
Qed.

(** The candidates loop from origin [o] with limits [limits]: every node it
    appends carries the end state of the trajectory simulated with [limits]
    for one of the candidates, and every candidate either became a node or
    ends within the radius of a node of the arena. *)
Lemma candidates_consulted (o : nat) (limits : simulation_limits)
    (cs : list Vector3f) :
  forall p, o < length (tree_ p) ->
  exists added,
    fold_left (candidate_step o limits) cs p = set_tree p (tree_ p ++ added) /\
    Forall (fun n => exists c, In c cs /\
                       state n = candidate_end p o limits c /\
                       setpoint n = qrot (q_ p) c /\ origin_ n = o) added /\
    (forall c, In c cs ->
       (exists n, In n added /\ state n = candidate_end p o limits c) \/
       (exists n, In n (tree_ p ++ added) /\
          flt (norm (vsub (getPosition n)
                       (position (candidate_end p o limits c))))
              (flit 0.2) = true)).
Proof.
  induction cs as [|c0 cs IH]; intros p Ho.
  - exists []. cbn [fold_left]. rewrite app_nil_r.
    split; [now destruct p |]. split; [constructor | intros c []].
  - cbn [fold_left].
    destruct (close_nodes_scan (tree_ p)
                (position (candidate_end p o limits c0))) as [|k] eqn:Hs.
    + rewrite (@candidate_step_appends o limits p c0 Ho Hs).
      set (child := child_node p o (candidate_end p o limits c0)
                      (qrot (q_ p) c0)).
      set (p1 := set_tree p (tree_ p ++ [child])).
      assert (Ho1 : o < length (tree_ p1))
        by (subst p1; cbn [tree_ set_tree]; rewrite length_snoc; lia).
      assert (Eend : forall c', candidate_end p1 o limits c' =
                                candidate_end p o limits c').
      { intros c'. subst p1. unfold candidate_end, tree_at.
        cbn [tree_ q_ tree_node_duration_ set_tree].
        rewrite app_nth1 by assumption. reflexivity. }
      destruct (IH p1 Ho1) as (added & E & F & K).
      exists (child :: added). rewrite E. subst p1. cbn [tree_ set_tree].
      rewrite <- app_assoc. split; [reflexivity |]. split.
      * constructor.
        -- exists c0. split; [now left |]. repeat split.
        -- eapply Forall_impl; [| exact F].
           intros n (c & Hc & Hst & Hsp & Hor). exists c.
           split; [now right |]. split; [rewrite Hst; apply Eend |].
           split; [exact Hsp | exact Hor].
      * intros c [<- | Hc].
        -- left. exists child. split; [now left | reflexivity].
        -- destruct (K c Hc) as [(n & Hn & Hst) | (n & Hn & Hcl)].
           ++ left. exists n. split; [now right | rewrite Hst; apply Eend].
           ++ right. exists n. cbn [tree_ set_tree] in Hn.
              rewrite <- app_assoc in Hn. split; [exact Hn |].
              rewrite <- Eend. exact Hcl.
    + rewrite candidate_step_rejects by (rewrite Hs; discriminate).
      destruct (IH p Ho) as (added & E & F & K).
      exists added. split; [exact E |]. split.
      * eapply Forall_impl; [| exact F].
        intros n (c & Hc & Hrest). exists c. split; [now right | exact Hrest].
      * intros c [<- | Hc]; [| apply K; exact Hc].
        right.
        destruct (@close_nodes_scan_found (tree_ p)
                    (position (candidate_end p o limits c0)))
          as (n & Hn & Hcl); [rewrite Hs; discriminate |].
        exists n. split; [apply in_or_app; now left | exact Hcl].
Qed.
End Properties.

(** ** The limits handed to the simulator *)

Section Limits.

Context {P : Platform}.

Local Abbreviation Vector3f := (Vec3 float).

Variable computeMaxSpeedFromBrakingDistance : float -> float -> float -> float.
Variable simpleCost :
  TreeNode -> Vector3f -> costParameters -> kdtree_t -> float.
Variables sim sim' :
  simulation_limits -> simulation_state -> float -> Vector3f -> float ->
  list simulation_state.

Lemma candidates_same_simulator (o : nat) (limits : simulation_limits) :
  (forall st step dir duration,
     sim limits st step dir duration = sim' limits st step dir duration) ->
  forall cs p,
    fold_left (expand_candidate simpleCost sim o limits) cs p =
    fold_left (expand_candidate simpleCost sim' o limits) cs p.
Proof.
  intros H. induction cs as [|c cs IH]; intros p; [reflexivity |].
  simpl. rewrite IH. f_equal. unfold expand_candidate. rewrite H. reflexivity.
Qed.

(** [std::min(std::min(a, b), c)] with the comparison of the platform:
    [std::min(x, y)] is [y] when [y < x] and [x] otherwise. *)
Lemma min_of_three (a b c : float) :
  let m := if flt b a then b else a in
  let r := if flt c m then c else m in
  (r = a \/ r = b \/ r = c) /\
  ((forall x, flt x x = false) ->
   (forall x y z, flt x y = true -> flt y z = true -> flt x z = true) ->
   flt a r = false /\ flt b r = false /\ flt c r = false).
Proof.
  intros m r. subst m r. split.
  - destruct (flt b a); destruct (flt c _); auto.
  - intros irrefl trans.
    assert (asym : forall x y, flt x y = true -> flt y x = false).
    { intros x y Hxy. destruct (flt y x) eqn:Hyx; [| reflexivity].
      rewrite <- (irrefl x). symmetry. exact (trans x y x Hxy Hyx). }
    assert (below : forall x y z,
               flt x y = true -> flt z y = false -> flt z x = false).
    { intros x y z Hxy Hzy. destruct (flt z x) eqn:Hzx; [| reflexivity].
      rewrite <- Hzy. symmetry. exact (trans z x y Hzx Hxy). }
    destruct (flt b a) eqn:Hba.
    + destruct (flt c b) eqn:Hcb.
      * split; [apply (below c b a Hcb); apply asym; exact Hba |].
        split; [apply asym; exact Hcb | apply irrefl].
      * split; [apply asym; exact Hba |]. split; [apply irrefl | exact Hcb].
    + destruct (flt c a) eqn:Hca.
      * split; [apply asym; exact Hca |].
        split; [apply (below c a b Hca Hba) | apply irrefl].
      * split; [apply irrefl |]. split; [exact Hba | exact Hca].
Qed.

(** C8.  In an iteration at origin [o] the simulator is called, for each of
    the ten candidates, with the limits [limits]: the configured limits
    [lims_] with the maximal horizontal speed replaced by [speed], the
    [std::min] of the braking-distance speed limit for the horizontal
    distance from the origin to the goal, the one for [max_sensor_range_],
    and the configured maximal horizontal speed.  [speed] is one of the
    three, and none of the three is below it (for a comparison that is
    irreflexive and transitive, as IEEE [<] is).  [lims_] is left as it is.
    When the iteration expands the origin, every node it appends carries the
    end state of the trajectory that the simulator returned for [limits] and
    one of the candidates, and every candidate either became such a node or
    its trajectory ends within [0.2f] of a node of the arena; so the
    iteration depends on the simulator only through what it returns for
    [limits]. *)
Theorem simulator_gets_local_limits (s : LoopState) :
  let p := planner s in
  let o := origin s in
  let jerk := max_jerk_norm (lims_ p) in
  let acc := max_acceleration_norm (lims_ p) in
  let to_goal :=
    computeMaxSpeedFromBrakingDistance jerk acc
      (head2_norm (vsub (position (state (tree_at p o))) (goal_ p))) in
  let to_horizon :=
    computeMaxSpeedFromBrakingDistance jerk acc (max_sensor_range_ p) in
  let configured := max_xy_velocity_norm (lims_ p) in
  let nearer := if flt to_horizon to_goal then to_horizon else to_goal in
  let speed := if flt configured nearer then configured else nearer in
  let limits :=
    {| max_xy_velocity_norm := speed;
       max_acceleration_norm := acc;
       max_jerk_norm := jerk;
       other_limits := other_limits (lims_ p) |} in
  let end_of := fun c =>
    back (sim limits (state (tree_at p o)) (flit 0.05) (qrot (q_ p) c)
            (tree_node_duration_ p)) in
  let p' :=
    planner (loop_body computeMaxSpeedFromBrakingDistance simpleCost sim s) in
  local_limits computeMaxSpeedFromBrakingDistance p o = limits /\
  (speed = to_goal \/ speed = to_horizon \/ speed = configured) /\
  ((forall x, flt x x = false) ->
   (forall x y z, flt x y = true -> flt y z = true -> flt x z = true) ->
   flt to_goal speed = false /\ flt to_horizon speed = false /\
   flt configured speed = false) /\
  lims_ p' = lims_ p /\
  (o < length (tree_ p) -> goal_or_horizon p o = false ->
   exists added,
     tree_ p' = update_at o (set_closed true) (tree_ p ++ added) /\
     Forall (fun n => exists c, In c candidates /\
                        state n = end_of c /\
                        setpoint n = qrot (q_ p) c /\ origin_ n = o) added /\
     (forall c, In c candidates ->
        (exists n, In n added /\ state n = end_of c) \/
        (exists n, In n (tree_ p ++ added) /\
           flt (norm (vsub (getPosition n) (position (end_of c))))
               (flit 0.2) = true))) /\
  ((forall st step dir duration,
      sim limits st step dir duration = sim' limits st step dir duration) ->
   loop_body computeMaxSpeedFromBrakingDistance simpleCost sim s =
   loop_body computeMaxSpeedFromBrakingDistance simpleCost sim' s).
Proof.
  intros p o jerk acc to_goal to_horizon configured nearer speed limits
    end_of p'.
  assert (L : local_limits computeMaxSpeedFromBrakingDistance p o = limits)
    by reflexivity.
  destruct (min_of_three to_goal to_horizon configured) as [Hin Hlow].
  split; [exact L |].
  split; [tauto |].
  split; [exact Hlow |].
  split; [| split].
  - subst p'. unfold loop_body. fold p o.
    destruct (goal_or_horizon p o); [reflexivity |].
    destruct (expand_planner computeMaxSpeedFromBrakingDistance simpleCost sim
                p o) as (t & _ & Ep).
    rewrite Ep. reflexivity.
  - intros Ho G. subst p'.
    rewrite (body_expand computeMaxSpeedFromBrakingDistance simpleCost sim s G).
    fold p o.
    destruct (expand_planner computeMaxSpeedFromBrakingDistance simpleCost sim
                p o) as (t & E & Ep).
    rewrite L in E.
    destruct (@candidates_consulted P simpleCost sim o limits candidates p Ho)
      as (added & E' & F & K).
    rewrite E' in E. apply (f_equal tree_) in E. cbn [tree_ set_tree] in E.
    exists added. rewrite Ep. cbn [tree_ set_closed_set set_tree].
    rewrite <- E. split; [reflexivity |]. split; [exact F | exact K].
  - intros H. unfold loop_body. fold p o.
    destruct (goal_or_horizon p o); [reflexivity |].
    unfold expand_branch. cbv zeta. rewrite L.
    rewrite (candidates_same_simulator o H). reflexivity.
Qed.

End Limits.

(** ** The planner on concrete inputs *)

Section Runs.

Import Scenario.

Local Abbreviation run_body sim := (loop_body speed_limit no_cost sim).
Local Abbreviation start range := (init_loop (planner_at_origin range) 0%Q).

(** *** The order of the rationals *)

Lemma Qltb_lt (a b : Q) : Qltb a b = true <-> (a < b)%Q.
Proof.
  unfold Qltb. rewrite negb_true_iff. split.
  - intros H. apply Qnot_le_lt. intros L.
    apply Qle_bool_iff in L. congruence.
  - intros H. destruct (Qle_bool b a) eqn:E; [| reflexivity].
    apply Qle_bool_iff in E. exfalso. exact (Qlt_not_le _ _ H E).
Qed.

Lemma Qltb_irrefl (a : Q) : Qltb a a = false.
Proof.
  destruct (Qltb a a) eqn:E; [| reflexivity].
  apply Qltb_lt in E. exfalso. exact (Qlt_irrefl _ E).
Qed.

Lemma Qltb_trans (a b c : Q) :
  Qltb a b = true -> Qltb b c = true -> Qltb a c = true.
Proof.
  rewrite !Qltb_lt. apply Qlt_trans.
Qed.

Lemma Qltb_between (a b c : Q) :
  Qltb a b = true -> Qltb a c = true \/ Qltb c b = true.
Proof.
  rewrite !Qltb_lt. intros H.
  destruct (Qlt_le_dec a c) as [L | L]; [now left | right].
  eapply Qle_lt_trans; eassumption.
Qed.

(** *** A path of one entry *)

(** The guard of line 153 holds for every path: a [size_t] is never
    negative. *)
Lemma second_to_last_guard (path : list (Vec3 Q)) :
  (0 <=? second_to_last_index path)%Z = true.
Proof.
  apply Z.leb_le. unfold second_to_last_index, size_t_sub.
  apply Z.mod_pos_bound. reflexivity.
Qed.

(** With a path of one entry, line 154 reads index [2^64 - 1]. *)
Lemma one_entry_path_read (p : StarPlanner) :
  length (path_node_setpoints_ p) = 1 ->
  set_starting_direction_from_path p = OutOfRangeRead 18446744073709551615 1.
Proof.
  intros H. unfold set_starting_direction_from_path.
  rewrite second_to_last_guard.
  unfold vector_at, second_to_last_index. rewrite H. reflexivity.
Qed.

(** With a path of two entries or more (and of a size that fits [size_t]),
    line 154 stores the entry before the last. *)
Lemma longer_path_read (p : StarPlanner) :
  2 <= length (path_node_setpoints_ p) ->
  (Z.of_nat (length (path_node_setpoints_ p)) < 2 ^ 64)%Z ->
  exists sp,
    nth_error (path_node_setpoints_ p) (length (path_node_setpoints_ p) - 2)
      = Some sp /\
    set_starting_direction_from_path p =
    Returned (set_starting_direction p sp).
Proof.
  intros H B. unfold set_starting_direction_from_path.
  rewrite second_to_last_guard. unfold vector_at, second_to_last_index.
  set (n := length (path_node_setpoints_ p)) in *.
  assert (I : size_t_sub (Z.of_nat n) 2 = Z.of_nat (n - 2)).
  { unfold size_t_sub. rewrite Nat2Z.inj_sub by lia.
    apply Z.mod_small. lia. }
  rewrite I, Nat2Z.id.
  assert (L : (Z.of_nat (n - 2) <? Z.of_nat n)%Z = true)
    by (apply Z.ltb_lt; lia).
  rewrite L.
  destruct (nth_error (path_node_setpoints_ p) (n - 2)) as [sp |] eqn:E.
  - exists sp. split; reflexivity.
  - apply nth_error_None in E. fold n in E. lia.
Qed.

(** C1, at a planner whose simulator does not move.  Every candidate ends
    within [0.2f] of the root, the arena stays the root, the loop ends
    through line 139 with the origin at the root and the path has one entry.
    Line 153 compares the [size_t] value [size() - 2 = 2^64 - 1] with 0, so
    the guard holds, and line 154 reads the path at index [2^64 - 1]. *)
Theorem degenerate_path_reads_out_of_range :
  buildLookAheadTree speed_limit no_cost sim_still 1
    (planner_at_origin 100) 0%Q
  = Some (OutOfRangeRead 18446744073709551615 1).
Proof. vm_compute. reflexivity. Qed.

(** *** A loop that does not end *)

Lemma both_closed_reached :
  run_body sim_to_post (run_body sim_to_post (start 100)) = both_closed [0; 1].
Proof. vm_compute. reflexivity. Qed.

Lemma both_closed_again (closed : list nat) :
  run_body sim_to_post (both_closed closed) = both_closed (closed ++ [1]).
Proof. vm_compute. reflexivity. Qed.

Lemma both_closed_runs (fuel : nat) :
  forall closed,
    run_loop speed_limit no_cost sim_to_post fuel (both_closed closed) = None.
Proof.
  induction fuel as [|fuel IH]; intros closed; [reflexivity |].
  rewrite run_loop_running by reflexivity.
  rewrite both_closed_again. apply IH.
Qed.

(** C2, at a planner whose simulator ends every trajectory at (1, 0, 0), ten
    units from the goal and far inside the horizon.  The first iteration
    appends that node, the second closes it.  From then on the arena holds
    two nodes, none of them open, the origin stays node 1, neither the guard
    of line 89 nor the check of line 139 holds, and every iteration repeats
    the one before: the loop is still running after any number of
    iterations. *)
Theorem expansion_loop_never_exits :
  (forall closed,
     let s := both_closed closed in
     length (tree_ (planner s)) = 2 /\
     forallb closed_ (tree_ (planner s)) = true /\
     goal_or_horizon (planner s) (origin s) = false /\
     run_body sim_to_post s = both_closed (closed ++ [1])) /\
  forall fuel,
    run_loop speed_limit no_cost sim_to_post fuel (start 100) = None.
Proof.
  split.
  - intros closed s. subst s.
    split; [vm_compute; reflexivity |].
    split; [vm_compute; reflexivity |].
    split; [vm_compute; reflexivity | apply both_closed_again].
  - intros [|fuel]; [reflexivity |].
    rewrite run_loop_running by reflexivity.
    destruct fuel as [|fuel]; [vm_compute; reflexivity |].
    rewrite run_loop_running by (vm_compute; reflexivity).
    rewrite both_closed_reached. apply both_closed_runs.
Qed.

End Runs.

(** ** The theorems at concrete inputs *)

Section Instances.

Import Scenario.

Local Abbreviation run_body sim := (loop_body speed_limit no_cost sim).
Local Abbreviation start range := (init_loop (planner_at_origin range) 0%Q).

Lemma at_goal_is_loop_head :
  LoopHead speed_limit no_cost sim_unit_step planner_near_goal 0%Q at_goal.
Proof.
  apply LoopHead_iterate. vm_compute. reflexivity.
Qed.

(** C9 as stated fails: in the flight to the near goal the branch fires at
    origin 11 and appends node 20; both indices enter the closed set, and
    both closed flags are false afterwards. *)
Lemma goal_branch_leaves_flags_down :
  let s' := run_body sim_unit_step at_goal in
  LoopHead speed_limit no_cost sim_unit_step planner_near_goal 0%Q at_goal /\
  goal_or_horizon (planner at_goal) (origin at_goal) = true /\
  origin at_goal = 11 /\
  length (tree_ (planner s')) = 21 /\
  closed_set_ (planner s') = [0; 1; 11; 20] /\
  ~ (closed_ (tree_at (planner s') 11) = true /\
     closed_ (tree_at (planner s') 20) = true).
Proof.
  intros s'.
  assert (F : closed_ (tree_at (planner s') 11) = false)
    by (vm_compute; reflexivity).
  split; [exact at_goal_is_loop_head |].
  split; [vm_compute; reflexivity |].
  split; [vm_compute; reflexivity |].
  split; [vm_compute; reflexivity |].
  split; [vm_compute; reflexivity |].
  intros [C _]. rewrite F in C. discriminate.
Qed.

(** C7 as stated fails: with [sim_to_post], after the second iteration no
    node of the arena is open; the expansion that follows (a loop head the
    run does reach) leaves the origin at node 1, a closed node. *)
Lemma next_origin_can_be_closed :
  let s := both_closed [0; 1] in
  let s' := run_body sim_to_post s in
  LoopHead speed_limit no_cost sim_to_post (planner_at_origin 100) 0%Q s /\
  goal_or_horizon (planner s) (origin s) = false /\
  origin s' = 1 /\
  ~ closed_ (tree_at (planner s') (origin s')) = false.
Proof.
  intros s s'. split.
  - subst s. rewrite <- both_closed_reached.
    apply head_next; [apply head_next; [apply head_init |] |];
      vm_compute; reflexivity.
  - assert (C : closed_ (tree_at (planner s') (origin s')) = true)
      by (vm_compute; reflexivity).
    split; [vm_compute; reflexivity |].
    split; [vm_compute; reflexivity |].
    rewrite C. discriminate.
Qed.

Lemma goal_branch_closes_in_closed_set_witness :
  closed_set_ (planner (run_body sim_unit_step at_goal)) =
  closed_set_ (planner at_goal) ++
  [origin at_goal; length (tree_ (planner at_goal))].
Proof.
  assert (G : goal_or_horizon (planner at_goal) (origin at_goal) = true)
    by (vm_compute; reflexivity).
  exact (proj1 (goal_branch_closes_in_closed_set speed_limit no_cost
                  sim_unit_step at_goal G)).
Defined.

Lemma score_update_rule_witness :
  let p' := planner (loop_body speed_limit unit_cost sim_unit_step
                       root_expanded) in
  let child := tree_at p' 12 in
  let parent := tree_at p' (origin_ child) in
  (heuristic_ child =
     fmul (norm (vsub (goal_ planner_weighted) (getPosition child)))
          (tree_heuristic_weight_ planner_weighted) /\
   total_cost_ child =
     fadd
       (fadd (fsub (total_cost_ parent) (heuristic_ parent))
          (unit_cost (as_costed child) (goal_ p') (cost_params_ p')
             (cloud_ p')))
       (heuristic_ child)) /\
  origin_ child = 1 /\
  Qeq_bool (fsub (total_cost_ parent) (heuristic_ parent)) 1 = true /\
  Qeq_bool (heuristic_ child) 2.828426 = true /\
  Qeq_bool (total_cost_ child) 4.828426 = true.
Proof.
  intros p' child parent.
  assert (H : LoopHead speed_limit unit_cost sim_unit_step planner_weighted
                0%Q root_expanded)
    by (apply LoopHead_iterate; vm_compute; reflexivity).
  assert (L : 12 < expansion_nodes speed_limit unit_cost sim_unit_step
                     root_expanded)
    by (apply Nat.ltb_lt; vm_compute; reflexivity).
  destruct (score_update_rule H) as (_ & _ & _ & Hh & Hf).
  split; [split |].
  - apply Hh. exact L.
  - apply Hf. split; [lia | exact L].
  - split; [vm_compute; reflexivity |].
    split; [vm_compute; reflexivity |].
    split; vm_compute; reflexivity.
Defined.

Lemma deduplication_radius_witness :
  apart (tree_at (planner (run_body sim_unit_step (start 100))) 0)
        (tree_at (planner (run_body sim_unit_step (start 100))) 1).
Proof.
  apply (proj1 (deduplication_radius
                  (@head_init QPlatform speed_limit no_cost sim_unit_step
                     (planner_at_origin 100) 0%Q))).
  split; [lia |]. apply Nat.ltb_lt. vm_compute. reflexivity.
Defined.

Lemma arena_append_only_parents_below_witness :
  extends (tree_ (planner (start 100)))
          (tree_ (planner (run_body sim_unit_step (start 100)))).
Proof.
  exact (proj1 (arena_append_only_parents_below
                  (@head_init QPlatform speed_limit no_cost sim_unit_step
                     (planner_at_origin 100) 0%Q))).
Defined.


Lemma next_origin_is_first_least_open_witness :
  let t := tree_ (planner (expand_branch speed_limit no_cost sim_unit_step
                             (planner (start 100)) 0)) in
  let o' := next_origin t 0 in
  o' < length t /\ closed_ (nth o' t no_node) = false /\
  flt (total_cost_ (nth 2 t no_node)) (total_cost_ (nth o' t no_node)) = false.
Proof.
  intros t o'.
  destruct (proj1 (proj2 (proj2
              (@next_origin_is_first_least_open QPlatform speed_limit no_cost
                 sim_unit_step Qltb_irrefl Qltb_trans
                 (fun a b c _ H => Qltb_between a b c H)
                 (planner (start 100)) 0))) 2)
    as (A & B & _ & C & _).
  - apply Nat.ltb_lt. vm_compute. reflexivity.
  - vm_compute. reflexivity.
  - vm_compute. reflexivity.
  - split; [exact A |]. split; [exact B |].
    apply C; [apply Nat.ltb_lt |]; vm_compute; reflexivity.
Defined.

Lemma simulator_gets_local_limits_witness :
  let s := init_loop planner_near_goal 0%Q in
  let p := planner s in
  let limits := local_limits speed_limit p (origin s) in
  let end_of := fun c =>
    back (sim_at_speed limits (state (tree_at p 0)) (flit 0.05)
            (qrot (q_ p) c) (tree_node_duration_ p)) in
  let p' := planner (loop_body speed_limit no_cost sim_at_speed s) in
  (Qeq_bool (max_xy_velocity_norm limits) 2 = true /\
   Qeq_bool (max_xy_velocity_norm (lims_ p')) 3 = true /\
   Qeq_bool (vx (getPosition (tree_at p' 1))) 2 = true) /\
  flt (max_xy_velocity_norm (lims_ p)) (max_xy_velocity_norm limits) = false /\
  lims_ p' = lims_ p /\
  (exists added,
     tree_ p' = update_at 0 (set_closed true) (tree_ p ++ added) /\
     Forall (fun n => exists c, In c candidates /\
                        state n = end_of c /\
                        setpoint n = qrot (q_ p) c /\ origin_ n = 0) added /\
     (forall c, In c candidates ->
        (exists n, In n added /\ state n = end_of c) \/
        (exists n, In n (tree_ p ++ added) /\
           flt (norm (vsub (getPosition n) (position (end_of c))))
               (flit 0.2) = true))) /\
  loop_body speed_limit no_cost sim_at_speed s =
  loop_body speed_limit no_cost sim_at_speed_two s.
Proof.
  intros s p limits end_of p'.
  destruct (@simulator_gets_local_limits QPlatform speed_limit no_cost
              sim_at_speed sim_at_speed_two s)
    as (_ & _ & Low & Keep & Flow & Ext).
  split; [| split; [| split; [| split]]].
  - split; [vm_compute; reflexivity |].
    split; vm_compute; reflexivity.
  - exact (proj2 (proj2 (Low Qltb_irrefl Qltb_trans))).
  - exact Keep.
  - apply Flow; [apply Nat.ltb_lt |]; vm_compute; reflexivity.
  - apply Ext. intros st step dir duration. vm_compute. reflexivity.
Defined.

Lemma stuck_only_when_root_has_no_child_witness :
  origin (run_body sim_still (start 100)) = 0.
Proof.
  apply (proj2 (proj2 (stuck_only_when_root_has_no_child
                         (@head_init QPlatform speed_limit no_cost sim_still
                            (planner_at_origin 100) 0%Q))));
    vm_compute; reflexivity.
Defined.


(** *** The further properties at concrete inputs *)




Lemma closed_set_lists_closed_nodes_witness :
  20 < length (tree_ (planner (run_body sim_unit_step at_goal))).
Proof.
  apply (proj1 (proj2 (closed_set_lists_closed_nodes at_goal_is_loop_head))).
  vm_compute. tauto.
Defined.

Lemma parents_are_closed_witness :
  closed_
    (tree_at (planner at_goal) (origin_ (tree_at (planner at_goal) 11)))
  = true.
Proof.
  apply (proj1 (parents_are_closed at_goal_is_loop_head)).
  split; [lia |]. apply Nat.ltb_lt. vm_compute. reflexivity.
Defined.

Lemma arena_size_bound_witness :
  exists s : @LoopState QPlatform,
    run_loop speed_limit no_cost sim_unit_step 3
      (init_loop planner_near_goal 0%Q) = Some s /\
    length (tree_ (planner s)) <= 1 + 10 * 3.
Proof.
  assert (Hs : match @run_loop QPlatform speed_limit no_cost sim_unit_step 3
                       (init_loop planner_near_goal 0%Q) with
               | Some _ => true
               | None => false
               end = true) by (vm_compute; reflexivity).
  destruct (@run_loop QPlatform speed_limit no_cost sim_unit_step 3
              (init_loop planner_near_goal 0%Q)) as [s |] eqn:E;
    [| discriminate Hs].
  exists s. split; [reflexivity |].
  exact (@arena_size_bound QPlatform _ _ _ _ _ _ _ E).
Defined.

Lemma extracted_path_shape_witness :
  exists commands,
    extract_path 11 (tree_ (planner (run_body sim_unit_step at_goal)))
      (origin (run_body sim_unit_step at_goal)) = Some (commands ++ [Zero]) /\
    length commands <= origin (run_body sim_unit_step at_goal) /\
    (origin (run_body sim_unit_step at_goal) = 0 <-> commands = []) /\
    Forall (rotated_candidate planner_near_goal) commands.
Proof.
  apply (extracted_path_shape at_goal_is_loop_head).
  apply Nat.leb_le. vm_compute. reflexivity.
Defined.

Lemma terminal_node_not_on_path_witness :
  extract_path 11 (tree_ (planner (run_body sim_unit_step at_goal)))
    (origin (run_body sim_unit_step at_goal)) =
  extract_path 11 (tree_ (planner at_goal)) (origin at_goal).
Proof.
  assert (G : goal_or_horizon (planner at_goal) (origin at_goal) = true)
    by (vm_compute; reflexivity).
  exact (proj2 (terminal_node_not_on_path at_goal_is_loop_head G) 11).
Defined.

Lemma starting_direction_is_a_candidate_witness :
  exists p' : @StarPlanner QPlatform,
    buildLookAheadTree speed_limit no_cost sim_unit_step 11
      planner_near_goal 0%Q = Some (Returned p') /\
    rotated_candidate planner_near_goal (starting_direction_ p').
Proof.
  assert (Hs : match @buildLookAheadTree QPlatform speed_limit no_cost
                       sim_unit_step 11 planner_near_goal 0%Q with
               | Some (Returned _) => true
               | _ => false
               end = true) by (vm_compute; reflexivity).
  destruct (@buildLookAheadTree QPlatform speed_limit no_cost sim_unit_step 11
              planner_near_goal 0%Q) as [[p' | i n] |] eqn:E;
    [| discriminate Hs | discriminate Hs].
  exists p'. split; [reflexivity |].
  destruct (@starting_direction_is_a_candidate QPlatform _ _ _ _ _ _ _ E)
    as (commands & _ & _ & _ & _ & H & _).
  exact H.
Defined.

Lemma outcome_by_last_origin_witness :
  buildLookAheadTree speed_limit no_cost sim_unit_step 1
    (planner_at_origin 0) 0%Q
  = Some (OutOfRangeRead 18446744073709551615 1).
Proof.
  assert (R : run_loop speed_limit no_cost sim_unit_step 1 (start 0) =
              Some (run_body sim_unit_step (start 0)))
    by (vm_compute; reflexivity).
  assert (L : origin (run_body sim_unit_step (start 0)) <= 1)
    by (apply Nat.leb_le; vm_compute; reflexivity).
  apply (proj1 (@outcome_by_last_origin QPlatform speed_limit no_cost
                  sim_unit_step (planner_at_origin 0) 0%Q 1 _ R L)).
  vm_compute. reflexivity.
Defined.

Lemma inputs_are_left_alone_witness :
  exists p' : @StarPlanner QPlatform,
    buildLookAheadTree speed_limit no_cost sim_unit_step 11
      planner_near_goal 0%Q = Some (Returned p') /\
    inputs_of p' = inputs_of planner_near_goal.
Proof.
  assert (Hs : match @buildLookAheadTree QPlatform speed_limit no_cost
                       sim_unit_step 11 planner_near_goal 0%Q with
               | Some (Returned _) => true
               | _ => false
               end = true) by (vm_compute; reflexivity).
  destruct (@buildLookAheadTree QPlatform speed_limit no_cost sim_unit_step 11
              planner_near_goal 0%Q) as [[p' | i n] |] eqn:E;
    [| discriminate Hs | discriminate Hs].
  exists p'. split; [reflexivity |].
  exact (proj1 (@inputs_are_left_alone QPlatform _ _ _ _ _ _ _ E)).
Defined.

Lemma outcome_depends_on_inputs_only_witness :
  buildLookAheadTree speed_limit no_cost sim_unit_step 11
    (planner (run_body sim_unit_step at_goal)) 0%Q =
  buildLookAheadTree speed_limit no_cost sim_unit_step 11
    planner_near_goal 0%Q.
Proof.
  apply outcome_depends_on_inputs_only. vm_compute. reflexivity.
Defined.


Lemma goal_branch_at_open_origin_witness :
  closed_ (tree_at (planner at_goal) (origin at_goal)) = false.
Proof.
  assert (G : goal_or_horizon (planner at_goal) (origin at_goal) = true)
    by (vm_compute; reflexivity).
  exact (proj1 (goal_branch_at_open_origin at_goal_is_loop_head G)).
Defined.

End Instances.
